(** * Rcpp numeric kernels of Advanced-R: embedding and verified properties

    The ten C++ sources under [C++/] are single loops over an Rcpp
    [NumericVector].  They are embedded here as monadic programs:

    - a [double] is an IEEE 754 binary64 value, modelled by [spec_float]
      with precision 53 and maximal exponent 1024, so that every arithmetic
      operation rounds as the hardware does; the not-a-number value of
      [spec_float] stands for R's missing value;
    - an [int] is modelled by [Z]: the integers the kernels compute are a
      vector length, a loop index below that length, and [n - 1] or
      [n - lag].  On a vector of fewer than 2^31 elements none of them
      leaves the range of [int] when [0 <= lag]; for a negative [lag] the
      embedding is that of the program where [n - lag <= INT_MAX], and the
      properties of negative lags are stated under that bound;
    - a [NumericVector] is a [list double]; [v[i]] is the unchecked
      subscript of Rcpp, so an index outside the vector is undefined
      behaviour and is reported as the failure [OutOfBounds];
    - [stop] aborts the call with an R error, [warning] appends to the log
      of warnings of the call and lets it continue.

    The file has three parts: the embedding of the sources, the
    definitions in which their properties are stated, and the proofs. *)

From Stdlib Require Import ZArith Lia Bool String.
From Stdlib Require Import Floats.SpecFloat.
From stdpp Require Import base list.

Local Open Scope Z_scope.

(** ** Doubles *)

Definition double : Type := spec_float.

Definition prec : Z := 53.
Definition emax : Z := 1024.

(** Conversion of an [int] to [double] (exact on the 32-bit range). *)
Definition of_int (z : Z) : double := binary_normalize prec emax z 0 false.

Definition dadd (a b : double) : double := SFadd prec emax a b.
Definition dsub (a b : double) : double := SFsub prec emax a b.
Definition dmul (a b : double) : double := SFmul prec emax a b.
Definition ddiv (a b : double) : double := SFdiv prec emax a b.

(** [a < b] and [a <= b] on doubles; both are false when an operand is a NaN. *)
Definition dlt (a b : double) : bool := SFltb a b.
Definition dle (a b : double) : bool := SFleb a b.

(** [std::min] and [std::max] of <algorithm>:
    [min(a, b)] is [(b < a) ? b : a] and [max(a, b)] is [(a < b) ? b : a]. *)
Definition std_min (a b : double) : double := if dlt b a then b else a.
Definition std_max (a b : double) : double := if dlt a b then b else a.

(** Modelled from the spec: R's [NA_REAL] macro and Rcpp's
    [NumericVector::is_na] are not in the repository.  The missing value is
    the one canonical not-a-number value of the representation, and
    [is_na] is the dedicated test for it. *)
Definition NA_REAL : double := S754_nan.

Definition is_na (d : double) : bool :=
  match d with
  | S754_nan => true
  | _ => false
  end.

(** ** The effects of a call *)

Inductive error : Type :=
| StopError (msg : string)   (* [stop(msg)] *)
| NegativeLength (n : Z)     (* a vector of negative length was requested *)
| OutOfBounds (i : Z).       (* [v[i]] with [i] outside [v] *)

Inductive outcome (A : Type) : Type :=
| Value (a : A)
| Failed (e : error).
Arguments Value {A} a.
Arguments Failed {A} e.

(** A computation takes the warnings signalled so far and gives its outcome
    with the warnings signalled up to its end. *)
Definition M (A : Type) : Type := list string -> outcome A * list string.

Definition ret {A : Type} (a : A) : M A := fun w => (Value a, w).

Definition bind {A B : Type} (m : M A) (k : A -> M B) : M B := fun w =>
  match m w with
  | (Value a, w') => k a w'
  | (Failed e, w') => (Failed e, w')
  end.

Notation "x <- m ;; k" := (bind m (fun x => k))
  (at level 90, m at next level, right associativity).

Definition throw {A : Type} (e : error) : M A := fun w => (Failed e, w).

Definition stop {A : Type} (msg : string) : M A := throw (StopError msg).

Definition warning (msg : string) : M unit := fun w => (Value tt, w ++ [msg]).

(** Running a call from an empty log. *)
Definition run {A : Type} (m : M A) : outcome A * list string := m [].

(** ** Numeric vectors *)

Abbreviation NumericVector := (list double).

Definition size (x : NumericVector) : Z := Z.of_nat (length x).

(** The greatest [int]. *)
Definition INT_MAX : Z := 2147483647.

(** [NumericVector out(n)]: [n] elements, all zero. *)
Definition NumericVector_new (n : Z) : M NumericVector :=
  if n <? 0 then throw (NegativeLength n)
  else ret (replicate (Z.to_nat n) (of_int 0)).

(** [x[i]] as a value. *)
Definition vget (x : NumericVector) (i : Z) : M double :=
  match (if 0 <=? i then x !! Z.to_nat i else None) with
  | Some d => ret d
  | None => throw (OutOfBounds i)
  end.

(** [out[i] = d]. *)
Definition vset (out : NumericVector) (i : Z) (d : double) : M NumericVector :=
  if (0 <=? i) && (i <? size out) then ret (<[Z.to_nat i := d]> out)
  else throw (OutOfBounds i).

(** ** Loops *)

(** [k] iterations of [body] on the indices [i], [i + 1], ... *)
Fixpoint for_from {S : Type} (k : nat) (i : Z) (body : Z -> S -> M S) (s : S)
  : M S :=
  match k with
  | O => ret s
  | Datatypes.S k' => s' <- body i s ;; for_from k' (i + 1) body s'
  end.

(** [for (int i = lo; i < hi; ++i) body], the body leaving [i] alone. *)
Definition for_loop {S : Type} (lo hi : Z) (body : Z -> S -> M S) (s : S)
  : M S :=
  for_from (Z.to_nat (hi - lo)) lo body s.

(** A loop whose body may [return] from the function. *)
Inductive step (S R : Type) : Type :=
| Next (s : S)
| Return (r : R).
Arguments Next {S R} s.
Arguments Return {S R} r.

Fixpoint for_from_ret {S R : Type} (k : nat) (i : Z)
    (body : Z -> S -> M (step S R)) (s : S) : M (step S R) :=
  match k with
  | O => ret (Next s)
  | Datatypes.S k' =>
      r <- body i s ;;
      match r with
      | Next s' => for_from_ret k' (i + 1) body s'
      | Return v => ret (Return v)
      end
  end.

Definition for_loop_ret {S R : Type} (lo hi : Z)
    (body : Z -> S -> M (step S R)) (s : S) : M (step S R) :=
  for_from_ret (Z.to_nat (hi - lo)) lo body s.

(** ** cummax_func.cpp, cummin_func.cpp, cumprod_func.cpp *)

Definition cummaxC (x : NumericVector) : M NumericVector :=
  let n := size x in
  out <- NumericVector_new n ;;
  x0 <- vget x 0 ;;
  out <- vset out 0 x0 ;;
  for_loop 1 n (fun i out =>
    a <- vget out (i - 1) ;;
    b <- vget x i ;;
    vset out i (std_max a b)) out.

Definition cumminC (x : NumericVector) : M NumericVector :=
  let n := size x in
  out <- NumericVector_new n ;;
  x0 <- vget x 0 ;;
  out <- vset out 0 x0 ;;
  for_loop 1 n (fun i out =>
    a <- vget out (i - 1) ;;
    b <- vget x i ;;
    vset out i (std_min a b)) out.

Definition cumprodC (x : NumericVector) : M NumericVector :=
  let n := size x in
  out <- NumericVector_new n ;;
  x0 <- vget x 0 ;;
  out <- vset out 0 x0 ;;
  for_loop 1 n (fun i out =>
    a <- vget out (i - 1) ;;
    b <- vget x i ;;
    vset out i (dmul a b)) out.

(** ** na_cumsum.cpp *)

Definition missing_warning : string := "Warning: Contains missing values.".

(** The test [na_rm == true && NumericVector::is_na(x[i])]: [x[i]] is read
    only when [na_rm] holds. *)
Definition na_test (na_rm : bool) (x : NumericVector) (i : Z) : M bool :=
  if na_rm then xi <- vget x i ;; ret (is_na xi) else ret false.

Definition cumsumC (x : NumericVector) (na_rm : bool) : M NumericVector :=
  let n := size x in
  out <- NumericVector_new n ;;
  x0 <- vget x 0 ;;
  out <- vset out 0 x0 ;;
  for_loop 1 n (fun i out =>
    c <- na_test na_rm x i ;;
    if c then
      out <- vset out i NA_REAL ;;
      _ <- warning missing_warning ;;
      ret out
    else
      a <- vget out (i - 1) ;;
      b <- vget x i ;;
      vset out i (dadd a b)) out.

(** ** diff_lagOne_func.cpp, diff_lagN_func.cpp, na_diff_func.cpp

    The three files define a function of the same name; each is kept in a
    module named after its file. *)

Definition lag_message : string := "`lag` must be less than `length(x)`.".

Module diff_lagOne_func.

Definition diffC (x : NumericVector) : M NumericVector :=
  let n := size x in
  out <- NumericVector_new (n - 1) ;;
  for_loop 1 n (fun i out =>
    a <- vget x i ;;
    b <- vget x (i - 1) ;;
    vset out (i - 1) (dsub a b)) out.

End diff_lagOne_func.

Module diff_lagN_func.

Definition diffC (x : NumericVector) (lag : Z) : M NumericVector :=
  let n := size x in
  if lag >=? n then stop lag_message else
  out <- NumericVector_new (n - lag) ;;
  for_loop lag n (fun i out =>
    a <- vget x i ;;
    b <- vget x (i - lag) ;;
    vset out (i - lag) (dsub a b)) out.

End diff_lagN_func.

Module na_diff_func.

Definition diffC (x : NumericVector) (lag : Z) (na_rm : bool)
  : M NumericVector :=
  let n := size x in
  if lag >=? n then stop lag_message else
  out <- NumericVector_new (n - lag) ;;
  for_loop lag n (fun i out =>
    c <- na_test na_rm x i ;;
    if c then
      out <- vset out (i - lag) NA_REAL ;;
      _ <- warning missing_warning ;;
      ret out
    else
      a <- vget x i ;;
      b <- vget x (i - lag) ;;
      vset out (i - lag) (dsub a b)) out.

End na_diff_func.

(** ** range_func.cpp, na_rangefunc.cpp *)

Definition empty_message : string := "`length(x)` must be greater than 0.".

(** The two assignments of a loop body of the range kernels. *)
Definition range_update (x : NumericVector) (i : Z) (acc : double * double)
  : M (double * double) :=
  let '(omin, omax) := acc in
  a <- vget x i ;;
  let omin := std_min a omin in
  b <- vget x i ;;
  let omax := std_max b omax in
  ret (omin, omax).

(** [NumericVector out(2); out[0] = omin; out[1] = omax; return out;] *)
Definition range_result (acc : double * double) : M NumericVector :=
  let '(omin, omax) := acc in
  out <- NumericVector_new 2 ;;
  out <- vset out 0 omin ;;
  out <- vset out 1 omax ;;
  ret out.

Definition rangeC (x : NumericVector) : M NumericVector :=
  omin <- vget x 0 ;;
  omax <- vget x 0 ;;
  let n := size x in
  if n =? 0 then stop empty_message else
  acc <- for_loop 1 n (range_update x) (omin, omax) ;;
  range_result acc.

Definition na_rangeC (x : NumericVector) (na_rm : bool) : M NumericVector :=
  omin <- vget x 0 ;;
  omax <- vget x 0 ;;
  let n := size x in
  if n =? 0 then stop empty_message else
  r <- for_loop_ret 0 n (fun i acc =>
         c <- na_test na_rm x i ;;
         if c then
           out_na <- NumericVector_new 1 ;;
           (* [out_na = NA_REAL] rebinds [out_na] to the vector holding
              that one value *)
           let out_na : NumericVector := [NA_REAL] in
           ret (Return out_na)
         else
           acc <- range_update x i acc ;;
           ret (Next acc)) (omin, omax) ;;
  match r with
  | Return out_na => ret out_na
  | Next acc => range_result acc
  end.

(** ** var_func.cpp *)

Section Variance.

(** [pow] of <cmath> is outside the repository; the kernel is embedded
    for any such function. *)
Variable pow : double -> double -> double.

Definition varC (x : NumericVector) : M double :=
  let n := size x in
  if n <? 2 then ret NA_REAL else
  mx <- for_loop 0 n (fun i mx =>
          xi <- vget x i ;;
          ret (dadd mx (ddiv xi (of_int n)))) (of_int 0) ;;
  out <- for_loop 0 n (fun i out =>
           xi <- vget x i ;;
           ret (dadd out (pow (dsub xi mx) (of_int 2)))) (of_int 0) ;;
  ret (ddiv out (of_int (n - 1))).

End Variance.

(** A stand-in for [pow] with which to run the kernel; it is not the
    [pow] of <cmath>.  On the exponent 0 it returns 1 for every base, a
    missing one too, as [pow] does; on the other exponents, of which the
    kernel uses 2 only, it returns the correctly rounded square of the
    base, which [pow(b, 2)] may miss by the last bit. *)
Definition pow_square (b e : double) : double :=
  match e with
  | S754_zero _ => of_int 1
  | _ => dmul b b
  end.

(** * Specification

    The predicates and functions in which the properties of the kernels
    are stated, and the loop bodies shared by several kernels. *)

(** A double that is not the missing value. *)
Definition not_na (d : double) : Prop := is_na d = false.

(** The number of missing values of a vector. *)
Fixpoint na_count (l : list double) : nat :=
  match l with
  | [] => 0
  | d :: l' => (if is_na d then 1 else 0) + na_count l'
  end.

(** A missing value sits at an index of [x] from [lo] on. *)
Definition missing_from (lo : nat) (x : NumericVector) : Prop :=
  exists (i : nat) (d : double),
    (lo <= i)%nat /\ x !! i = Some d /\ is_na d = true.

(** A computation that signals nothing. *)
Definition silent {A : Type} (m : M A) : Prop := forall w, snd (m w) = w.

(** A call has warned when its log is not empty. *)
Definition warned {A : Type} (m : M A) : Prop := snd (run m) <> [].

(** ** The cumulative kernels

    The loop of [cumsumC] tests every element for missingness; with the
    test switched off its body is the body of [cummaxC], [cumminC] and
    [cumprodC] for their operation. *)

Definition scan_body (op : double -> double -> double) (na_rm : bool)
    (x : NumericVector) (i : Z) (out : NumericVector) : M NumericVector :=
  c <- na_test na_rm x i ;;
  if c then
    out <- vset out i NA_REAL ;;
    _ <- warning missing_warning ;;
    ret out
  else
    a <- vget out (i - 1) ;;
    b <- vget x i ;;
    vset out i (op a b).

(** The four cumulative kernels are this program, for their operation. *)
Definition scan_kernel (op : double -> double -> double) (na_rm : bool)
    (x : NumericVector) : M NumericVector :=
  let n := size x in
  out <- NumericVector_new n ;;
  x0 <- vget x 0 ;;
  out <- vset out 0 x0 ;;
  for_loop 1 n (scan_body op na_rm x) out.

(** What the loops establish: element [0] is copied, and element [i] is
    either the missing value (a skipped position) or the operation applied
    to the previous output and the current input. *)
Definition scan_of (op : double -> double -> double) (na_rm : bool)
    (x out : NumericVector) : Prop :=
  length out = length x /\
  out !! 0%nat = x !! 0%nat /\
  forall (i : nat) (a b : double),
    (1 <= i)%nat -> out !! (i - 1)%nat = Some a -> x !! i = Some b ->
    out !! i = Some (if na_rm && is_na b then NA_REAL else op a b).

(** [out] is the left fold of [op] over [x], element by element. *)
Definition recurrence (op : double -> double -> double)
    (x out : NumericVector) : Prop :=
  length out = length x /\
  out !! 0%nat = x !! 0%nat /\
  forall (i : nat) (a b : double),
    (1 <= i)%nat -> out !! (i - 1)%nat = Some a -> x !! i = Some b ->
    out !! i = Some (op a b).

(** The warnings of the first [k] iterations of the loop: one for each
    missing value at an index from [1] on, when the test is on. *)
Definition scan_warnings (na_rm : bool) (x : NumericVector) (k : nat)
  : list string :=
  replicate (if na_rm then na_count (take k (drop 1 x)) else 0%nat)
            missing_warning.

(** ** The lagged differences *)

Definition diff_body (na_rm : bool) (x : NumericVector) (lag : Z) (i : Z)
    (out : NumericVector) : M NumericVector :=
  c <- na_test na_rm x i ;;
  if c then
    out <- vset out (i - lag) NA_REAL ;;
    _ <- warning missing_warning ;;
    ret out
  else
    a <- vget x i ;;
    b <- vget x (i - lag) ;;
    vset out (i - lag) (dsub a b).

(** What the loop of a lagged difference establishes: [out[i]] is the
    missing value when the later element [x[i + lag]] is skipped, and the
    difference [x[i + lag] - x[i]] otherwise. *)
Definition diff_of (na_rm : bool) (lag : Z) (x out : NumericVector) : Prop :=
  Z.of_nat (length out) = size x - lag /\
  forall (i : nat) (a b : double),
    x !! i = Some a -> x !! (i + Z.to_nat lag)%nat = Some b ->
    out !! i = Some (if na_rm && is_na b then NA_REAL else dsub b a).

(** The warnings of the first [k] iterations of the loop: one for each
    missing value from index [lag] on, when the test is on. *)
Definition diff_warnings (na_rm : bool) (x : NumericVector) (lag : Z)
    (k : nat) : list string :=
  replicate
    (if na_rm then na_count (take k (drop (Z.to_nat lag) x)) else 0%nat)
    missing_warning.

(** ** The range *)

(** One iteration of the range loops on the element [d]. *)
Definition range_step (acc : double * double) (d : double)
  : double * double :=
  (std_min d (fst acc), std_max d (snd acc)).

(** The body of the loop of [na_rangeC]. *)
Definition na_range_body (na_rm : bool) (x : NumericVector) (i : Z)
    (acc : double * double) : M (step (double * double) (list double)) :=
  c <- na_test na_rm x i ;;
  if c then
    out_na <- NumericVector_new 1 ;;
    ret (Return [NA_REAL])
  else
    acc <- range_update x i acc ;;
    ret (Next acc).

(** [lo] and [hi] are a least and a greatest element of [l]. *)
Definition is_range (l : list double) (lo hi : double) : Prop :=
  lo ∈ l /\ hi ∈ l /\
  forall y, y ∈ l -> dle lo y = true /\ dle y hi = true.

(** [d] is a greatest, or a least, element of [l]. *)
Definition is_greatest (l : list double) (d : double) : Prop :=
  d ∈ l /\ forall y, y ∈ l -> dle y d = true.

Definition is_least (l : list double) (d : double) : Prop :=
  d ∈ l /\ forall y, y ∈ l -> dle d y = true.

(** Once an element of [out] is missing, every later one is the missing
    value. *)
Definition never_recovers (out : NumericVector) : Prop :=
  forall (i j : nat) (a : double),
    (i <= j < length out)%nat -> out !! i = Some a -> is_na a = true ->
    out !! j = Some NA_REAL.

(** ** The sample variance, as the specification words it *)

(** The mean, accumulated as the sum of the [x[i] / n]. *)
Definition mean_by_parts (x : NumericVector) : double :=
  fold_left (fun m xi => dadd m (ddiv xi (of_int (size x)))) x (of_int 0).

(** The sum of the squared deviations from [m]. *)
Definition sum_sq_dev (pow : double -> double -> double) (x : NumericVector)
    (m : double) : double :=
  fold_left (fun s xi => dadd s (pow (dsub xi m) (of_int 2))) x (of_int 0).

(** The Bessel-corrected sample variance. *)
Definition sample_variance (pow : double -> double -> double)
    (x : NumericVector) : double :=
  ddiv (sum_sq_dev pow x (mean_by_parts x)) (of_int (size x - 1)).

(** ** Proof automation *)

Ltac fold_pos_compare :=
  repeat match goal with
    | |- context [Pos.compare_cont Eq ?p ?q] =>
        change (Pos.compare_cont Eq p q) with (p ?= q)%positive
    end.

(** * Properties *)

(** ** The order of doubles

    The lemmas hold for every [spec_float], hence for the canonical ones
    that are the values of a C++ [double]. *)

Lemma SFcompare_swap (a b : double) :
  SFcompare b a = CompOpp <$> SFcompare a b.
Proof.
  destruct a as [sa|sa| |sa ma ea], b as [sb|sb| |sb mb eb]; simpl;
    try reflexivity;
    try (destruct sa; reflexivity); try (destruct sb; reflexivity);
    try (destruct sa, sb; reflexivity).
  fold_pos_compare.
  destruct sa, sb; try reflexivity;
    rewrite (Z.compare_antisym ea eb), (Pos.compare_antisym ma mb);
    destruct (ea ?= eb); simpl; try reflexivity;
    destruct (ma ?= mb)%positive; reflexivity.
Qed.

Lemma SFcompare_not_na (a b : double) :
  not_na a -> not_na b -> exists c, SFcompare a b = Some c.
Proof.
  unfold not_na.
  destruct a, b; simpl; intros; try discriminate; eauto.
Qed.

Lemma SFcompare_refl (a : double) : not_na a -> SFcompare a a = Some Eq.
Proof.
  unfold not_na.
  destruct a as [s|s| |s m e]; simpl; intros; try discriminate;
    try reflexivity; destruct s; try reflexivity;
    rewrite Z.compare_refl, (Pos.compare_cont_refl m Eq); reflexivity.
Qed.

Lemma dle_refl (a : double) : not_na a -> dle a a = true.
Proof. intros H. unfold dle, SFleb. rewrite SFcompare_refl; auto. Qed.

Lemma dlt_dle (a b : double) : dlt a b = true -> dle a b = true.
Proof.
  unfold dlt, dle, SFltb, SFleb.
  destruct (SFcompare a b) as [[]|]; congruence.
Qed.

Lemma dlt_false_dle (a b : double) :
  not_na a -> not_na b -> dlt a b = false -> dle b a = true.
Proof.
  intros Ha Hb. unfold dlt, dle, SFltb, SFleb.
  rewrite (SFcompare_swap a b).
  destruct (SFcompare_not_na a b Ha Hb) as [c ->].
  destruct c; simpl; congruence.
Qed.

Lemma dle_not_na (a b : double) : dle a b = true -> not_na a /\ not_na b.
Proof.
  unfold dle, SFleb, not_na.
  destruct a, b; simpl; try discriminate; auto.
Qed.

(** On the finite doubles the comparison is lexicographic on the sign, the
    exponent and the mantissa. *)
Lemma dle_trans (a b c : double) :
  dle a b = true -> dle b c = true -> dle a c = true.
Proof.
  unfold dle, SFleb.
  destruct a as [sa|sa| |sa ma ea], b as [sb|sb| |sb mb eb],
           c as [sc|sc| |sc mc ec]; simpl; try discriminate; try reflexivity;
    try (destruct sa; simpl; try discriminate; try reflexivity);
    try (destruct sb; simpl; try discriminate; try reflexivity);
    try (destruct sc; simpl; try discriminate; try reflexivity);
    fold_pos_compare;
    destruct (Z.compare_spec ea eb), (Z.compare_spec eb ec),
             (Z.compare_spec ea ec); try discriminate; try reflexivity;
      try lia;
    destruct (Pos.compare_spec ma mb), (Pos.compare_spec mb mc),
             (Pos.compare_spec ma mc); simpl; try discriminate;
      try reflexivity; lia.
Qed.

(** ** The monad and the vector primitives *)

Lemma bind_value {A B : Type} (m : M A) (k : A -> M B) w a w' :
  m w = (Value a, w') -> bind m k w = k a w'.
Proof. unfold bind. intros ->. reflexivity. Qed.

Lemma bind_failed {A B : Type} (m : M A) (k : A -> M B) w e w' :
  m w = (Failed e, w') -> bind m k w = (Failed e, w').
Proof. unfold bind. intros ->. reflexivity. Qed.

Lemma bind_ret {A B : Type} (a : A) (k : A -> M B) w :
  bind (ret a) k w = k a w.
Proof. reflexivity. Qed.

Lemma vget_value (x : NumericVector) (i : Z) (d : double) w :
  0 <= i -> x !! Z.to_nat i = Some d -> vget x i w = (Value d, w).
Proof.
  intros Hi Hd. unfold vget.
  destruct (Z.leb_spec 0 i); [|lia]. rewrite Hd. reflexivity.
Qed.

Lemma vset_value (out : NumericVector) (i : Z) (d : double) w :
  0 <= i < size out ->
  vset out i d w = (Value (<[Z.to_nat i := d]> out), w).
Proof.
  intros Hi. unfold vset.
  destruct (Z.leb_spec 0 i); [|lia].
  destruct (Z.ltb_spec i (size out)); [|lia]. reflexivity.
Qed.

Lemma NumericVector_new_value (n : Z) w :
  0 <= n ->
  NumericVector_new n w = (Value (replicate (Z.to_nat n) (of_int 0)), w).
Proof.
  intros Hn. unfold NumericVector_new.
  destruct (Z.ltb_spec n 0); [lia|]. reflexivity.
Qed.

Lemma lookup_size (x : NumericVector) (i : Z) :
  0 <= i < size x -> exists d, x !! Z.to_nat i = Some d.
Proof.
  unfold size. intros Hi.
  apply (lookup_lt_is_Some_2 x (Z.to_nat i)). lia.
Qed.

(** ** Loops *)

(** A loop whose body keeps an invariant and never fails runs to its end
    and establishes the invariant there. *)
Lemma for_from_inv {S : Type} (I : Z -> S -> list string -> Prop)
    (body : Z -> S -> M S) (k : nat) :
  forall i s w,
    I i s w ->
    (forall j s w, i <= j < i + Z.of_nat k -> I j s w ->
       exists s' w', body j s w = (Value s', w') /\ I (j + 1) s' w') ->
    exists s' w',
      for_from k i body s w = (Value s', w') /\ I (i + Z.of_nat k) s' w'.
Proof.
  induction k as [|k IH]; intros i s w HI Hbody.
  - exists s, w. split; [reflexivity|].
    replace (i + Z.of_nat 0) with i by lia. exact HI.
  - destruct (Hbody i s w) as (s1 & w1 & E1 & HI1); [lia|exact HI|].
    destruct (IH (i + 1) s1 w1 HI1) as (s2 & w2 & E2 & HI2).
    { intros j s' w' Hj. apply Hbody. lia. }
    exists s2, w2. split.
    + simpl. rewrite (bind_value _ _ _ _ _ E1). exact E2.
    + replace (i + Z.of_nat (Datatypes.S k)) with (i + 1 + Z.of_nat k) by lia.
      exact HI2.
Qed.

Lemma for_loop_inv {S : Type} (I : Z -> S -> list string -> Prop)
    (body : Z -> S -> M S) (lo hi : Z) s w :
  lo <= hi ->
  I lo s w ->
  (forall j s w, lo <= j < hi -> I j s w ->
     exists s' w', body j s w = (Value s', w') /\ I (j + 1) s' w') ->
  exists s' w', for_loop lo hi body s w = (Value s', w') /\ I hi s' w'.
Proof.
  intros Hle HI Hbody. unfold for_loop.
  destruct (for_from_inv I body (Z.to_nat (hi - lo)) lo s w HI)
    as (s' & w' & E & HI').
  { intros j s0 w0 Hj. apply Hbody. lia. }
  exists s', w'. split; [exact E|].
  replace hi with (lo + Z.of_nat (Z.to_nat (hi - lo))) by lia. exact HI'.
Qed.

Lemma for_from_S {S : Type} (k : nat) (i : Z) (body : Z -> S -> M S) (s : S) :
  for_from (Datatypes.S k) i body s
  = (s' <- body i s ;; for_from k (i + 1) body s').
Proof. reflexivity. Qed.

(** Two bodies that agree on the indices of the loop give the same loop. *)
Lemma for_from_ext {S : Type} (body1 body2 : Z -> S -> M S) (k : nat) :
  forall i s w,
    (forall j s w, i <= j < i + Z.of_nat k -> body1 j s w = body2 j s w) ->
    for_from k i body1 s w = for_from k i body2 s w.
Proof.
  induction k as [|k IH]; intros i s w H; [reflexivity|].
  simpl. unfold bind. rewrite H by lia.
  destruct (body2 i s w) as [[s1|e] w1]; [|reflexivity].
  apply IH. intros j s' w' Hj. apply H. lia.
Qed.

(** ** Counting the missing values of a vector *)

Lemma na_count_app (l1 l2 : list double) :
  na_count (l1 ++ l2) = (na_count l1 + na_count l2)%nat.
Proof.
  induction l1 as [|d l1 IH]; simpl; [reflexivity|]. rewrite IH. lia.
Qed.

Lemma na_count_take_S (l : list double) (k : nat) (d : double) :
  l !! k = Some d ->
  na_count (take (Datatypes.S k) l)
  = (na_count (take k l) + (if is_na d then 1 else 0))%nat.
Proof.
  intros H. rewrite (take_S_r l k d H), na_count_app. simpl. lia.
Qed.

Lemma na_count_pos (l : list double) :
  (0 < na_count l)%nat <->
  exists (i : nat) (d : double), l !! i = Some d /\ is_na d = true.
Proof.
  induction l as [|d l IH]; simpl.
  - split; [lia|]. intros (i & d & H & _). rewrite lookup_nil in H.
    discriminate.
  - split.
    + intros H. destruct (is_na d) eqn:E.
      * exists 0%nat, d. auto.
      * destruct IH as [IH _]. destruct IH as (i & d' & Hi & Hd); [lia|].
        exists (Datatypes.S i), d'. auto.
    + intros ([|i] & d' & Hi & Hd); simpl in Hi.
      * injection Hi as ->. rewrite Hd. lia.
      * assert (0 < na_count l)%nat by (apply IH; eauto). lia.
Qed.

(** ** The loop of the four cumulative kernels *)

Section GuardedScan.

Variable op : double -> double -> double.
Variable na_rm : bool.
Variable x : NumericVector.

Lemma na_test_value (i : Z) (b : double) w :
  0 <= i -> x !! Z.to_nat i = Some b ->
  na_test na_rm x i w = (Value (na_rm && is_na b), w).
Proof.
  intros Hi Hb. unfold na_test. destruct na_rm; [|reflexivity].
  rewrite (bind_value _ _ _ _ _ (vget_value x i b w Hi Hb)). reflexivity.
Qed.

Lemma scan_body_step (i : Z) (out : NumericVector) (a b : double) w :
  1 <= i < size out ->
  out !! Z.to_nat (i - 1) = Some a ->
  x !! Z.to_nat i = Some b ->
  scan_body op na_rm x i out w =
    (Value (<[Z.to_nat i := if na_rm && is_na b then NA_REAL else op a b]> out),
     w ++ (if na_rm && is_na b then [missing_warning] else [])).
Proof.
  intros Hi Ha Hb. unfold scan_body.
  rewrite (bind_value _ _ _ _ _ (na_test_value i b w ltac:(lia) Hb)).
  destruct (na_rm && is_na b).
  - rewrite (bind_value _ _ _ _ _ (vset_value out i NA_REAL w ltac:(lia))).
    reflexivity.
  - rewrite (bind_value _ _ _ _ _
               (vget_value out (i - 1) a w ltac:(lia) Ha)).
    rewrite (bind_value _ _ _ _ _ (vget_value x i b w ltac:(lia) Hb)).
    rewrite (vset_value out i (op a b) w ltac:(lia)).
    rewrite app_nil_r. reflexivity.
Qed.

Lemma scan_warnings_S (k : nat) (b : double) :
  x !! Datatypes.S k = Some b ->
  scan_warnings na_rm x (Datatypes.S k)
  = scan_warnings na_rm x k ++ (if na_rm && is_na b then [missing_warning] else []).
Proof.
  intros Hb. unfold scan_warnings.
  destruct na_rm; simpl; [|reflexivity].
  rewrite (na_count_take_S (drop 1 x) k b)
    by (rewrite lookup_drop; exact Hb).
  rewrite replicate_add. destruct (is_na b); reflexivity.
Qed.

Lemma scan_loop (out0 : NumericVector) w0 :
  x <> [] ->
  length out0 = length x ->
  out0 !! 0%nat = x !! 0%nat ->
  exists out,
    for_loop 1 (size x) (scan_body op na_rm x) out0 w0
    = (Value out, w0 ++ scan_warnings na_rm x (length x - 1)) /\
    scan_of op na_rm x out.
Proof.
  intros Hx Hlen H0.
  assert (Hn : 1 <= size x).
  { unfold size. destruct x; [congruence|simpl; lia]. }
  destruct (for_loop_inv
    (fun j out w =>
       length out = length x /\ out !! 0%nat = x !! 0%nat /\
       (forall (i : nat) a b, (1 <= i)%nat -> Z.of_nat i < j ->
          out !! (i - 1)%nat = Some a -> x !! i = Some b ->
          out !! i = Some (if na_rm && is_na b then NA_REAL else op a b)) /\
       w = w0 ++ scan_warnings na_rm x (Z.to_nat (j - 1)))
    (scan_body op na_rm x) 1 (size x) out0 w0 Hn) as (out & w & E & HI).
  - repeat split; auto.
    + intros i a b Hi Hj. lia.
    + unfold scan_warnings. change (Z.to_nat (1 - 1)) with 0%nat.
      rewrite take_0. destruct na_rm; simpl; rewrite app_nil_r; reflexivity.
  - intros j out w Hj (Hl & Hz & Hrec & Hw).
    destruct (lookup_size x j ltac:(lia)) as [b Hb].
    assert (Ho : exists a, out !! Z.to_nat (j - 1) = Some a).
    { apply (lookup_lt_is_Some_2 out). unfold size in Hj. lia. }
    destruct Ho as [a Ha].
    eexists _, _. split.
    { apply (scan_body_step j out a b w); auto. unfold size in *. lia. }
    assert (Hjn : (Z.to_nat j < length out)%nat) by (unfold size in Hj; lia).
    repeat split.
    + rewrite length_insert. exact Hl.
    + rewrite list_lookup_insert_ne by lia. exact Hz.
    + intros i a' b' Hi Hij Ha' Hb'.
      destruct (decide (i = Z.to_nat j)) as [->|Hne].
      * rewrite list_lookup_insert_eq by exact Hjn.
        rewrite list_lookup_insert_ne in Ha' by lia.
        replace (Z.to_nat j - 1)%nat with (Z.to_nat (j - 1)) in Ha' by lia.
        assert (a' = a) as -> by congruence.
        assert (b' = b) as -> by congruence. reflexivity.
      * rewrite list_lookup_insert_ne by lia.
        rewrite list_lookup_insert_ne in Ha' by lia.
        apply Hrec; auto. lia.
    + subst w. rewrite <- app_assoc. f_equal.
      replace (Z.to_nat (j + 1 - 1)) with (Datatypes.S (Z.to_nat (j - 1)))
        by lia.
      symmetry. apply scan_warnings_S.
      replace (Datatypes.S (Z.to_nat (j - 1))) with (Z.to_nat j) by lia.
      exact Hb.
  - destruct HI as (Hl & Hz & Hrec & Hw).
    exists out. split.
    + rewrite E. subst w. do 3 f_equal. unfold size. lia.
    + repeat split; auto.
      intros i a b Hi Ha Hb. apply Hrec; auto.
      apply lookup_lt_Some in Hb. unfold size. lia.
Qed.

End GuardedScan.

Lemma cummaxC_scan (x : NumericVector) :
  cummaxC x = scan_kernel std_max false x.
Proof. reflexivity. Qed.

Lemma cumminC_scan (x : NumericVector) :
  cumminC x = scan_kernel std_min false x.
Proof. reflexivity. Qed.

Lemma cumprodC_scan (x : NumericVector) :
  cumprodC x = scan_kernel dmul false x.
Proof. reflexivity. Qed.

Lemma cumsumC_scan (x : NumericVector) (na_rm : bool) :
  cumsumC x na_rm = scan_kernel dadd na_rm x.
Proof. reflexivity. Qed.

Lemma scan_kernel_spec (op : double -> double -> double) (na_rm : bool)
    (x : NumericVector) :
  x <> [] ->
  exists out,
    run (scan_kernel op na_rm x)
    = (Value out, scan_warnings na_rm x (length x - 1)) /\
    scan_of op na_rm x out.
Proof.
  intros Hx. destruct x as [|x0 x'] eqn:Ex; [congruence|]. rewrite <- Ex in *.
  assert (Hn : 1 <= size x) by (subst x; unfold size; simpl; lia).
  assert (H0 : x !! Z.to_nat 0 = Some x0) by (subst x; reflexivity).
  set (out0 := <[Z.to_nat 0 := x0]> (replicate (Z.to_nat (size x)) (of_int 0))).
  assert (Hlen : length out0 = length x).
  { unfold out0. rewrite length_insert, length_replicate. unfold size. lia. }
  destruct (scan_loop op na_rm x out0 [] Hx Hlen) as (out & E & Hout).
  { unfold out0. rewrite list_lookup_insert_eq; [symmetry; exact H0|].
    rewrite length_replicate. unfold size in *. lia. }
  exists out. split; [|exact Hout].
  unfold run, scan_kernel.
  rewrite (bind_value _ _ _ _ _
             (NumericVector_new_value (size x) [] ltac:(lia))).
  rewrite (bind_value _ _ _ _ _ (vget_value x 0 x0 [] ltac:(lia) H0)).
  assert (Hs : 0 <= 0 < size (replicate (Z.to_nat (size x)) (of_int 0))).
  { unfold size at 1. rewrite length_replicate. lia. }
  rewrite (bind_value _ _ _ _ _ (vset_value _ 0 x0 [] Hs)).
  exact E.
Qed.

(** The unguarded kernels signal nothing. *)
Lemma scan_warnings_off (x : NumericVector) (k : nat) :
  scan_warnings false x k = [].
Proof. reflexivity. Qed.

(** ** The lagged differences *)

Section GuardedDiff.

Variable na_rm : bool.
Variable x : NumericVector.
Variable lag : Z.

Lemma diff_body_step (i : Z) (out : NumericVector) (a b : double) w :
  0 <= lag <= i ->
  i - lag < size out ->
  x !! Z.to_nat (i - lag) = Some a ->
  x !! Z.to_nat i = Some b ->
  diff_body na_rm x lag i out w =
    (Value (<[Z.to_nat (i - lag) :=
               if na_rm && is_na b then NA_REAL else dsub b a]> out),
     w ++ (if na_rm && is_na b then [missing_warning] else [])).
Proof.
  intros Hi Hout Ha Hb. unfold diff_body.
  rewrite (bind_value _ _ _ _ _
             (na_test_value na_rm x i b w ltac:(lia) Hb)).
  destruct (na_rm && is_na b).
  - rewrite (bind_value _ _ _ _ _
               (vset_value out (i - lag) NA_REAL w ltac:(lia))).
    reflexivity.
  - rewrite (bind_value _ _ _ _ _ (vget_value x i b w ltac:(lia) Hb)).
    rewrite (bind_value _ _ _ _ _
               (vget_value x (i - lag) a w ltac:(lia) Ha)).
    rewrite (vset_value out (i - lag) (dsub b a) w ltac:(lia)).
    rewrite app_nil_r. reflexivity.
Qed.

Lemma diff_warnings_S (k : nat) (b : double) :
  x !! (Z.to_nat lag + k)%nat = Some b ->
  diff_warnings na_rm x lag (Datatypes.S k)
  = diff_warnings na_rm x lag k ++ (if na_rm && is_na b then [missing_warning] else []).
Proof.
  intros Hb. unfold diff_warnings.
  destruct na_rm; simpl; [|reflexivity].
  rewrite (na_count_take_S (drop (Z.to_nat lag) x) k b)
    by (rewrite lookup_drop; exact Hb).
  rewrite replicate_add. destruct (is_na b); reflexivity.
Qed.

Lemma diff_loop (out0 : NumericVector) w0 :
  0 <= lag < size x ->
  Z.of_nat (length out0) = size x - lag ->
  exists out,
    for_loop lag (size x) (diff_body na_rm x lag) out0 w0
    = (Value out, w0 ++ diff_warnings na_rm x lag (Z.to_nat (size x - lag))) /\
    diff_of na_rm lag x out.
Proof.
  intros Hlag Hlen.
  destruct (for_loop_inv
    (fun j out w =>
       Z.of_nat (length out) = size x - lag /\
       (forall (i : nat) a b, Z.of_nat i + lag < j ->
          x !! i = Some a -> x !! (i + Z.to_nat lag)%nat = Some b ->
          out !! i = Some (if na_rm && is_na b then NA_REAL else dsub b a)) /\
       w = w0 ++ diff_warnings na_rm x lag (Z.to_nat (j - lag)))
    (diff_body na_rm x lag) lag (size x) out0 w0 ltac:(lia)) as (out & w & E & HI).
  - repeat split; auto.
    + intros i a b Hi. lia.
    + unfold diff_warnings. replace (Z.to_nat (lag - lag)) with 0%nat by lia.
      rewrite take_0. destruct na_rm; simpl; rewrite app_nil_r; reflexivity.
  - intros j out w Hj (Hl & Hrec & Hw).
    destruct (lookup_size x j ltac:(lia)) as [b Hb].
    destruct (lookup_size x (j - lag) ltac:(lia)) as [a Ha].
    eexists _, _. split.
    { apply (diff_body_step j out a b w); auto; unfold size; lia. }
    assert (Hjn : (Z.to_nat (j - lag) < length out)%nat) by lia.
    repeat split.
    + rewrite length_insert. exact Hl.
    + intros i a' b' Hij Ha' Hb'.
      destruct (decide (i = Z.to_nat (j - lag))) as [->|Hne].
      * rewrite list_lookup_insert_eq by exact Hjn.
        replace (Z.to_nat (j - lag) + Z.to_nat lag)%nat with (Z.to_nat j)
          in Hb' by lia.
        assert (a' = a) as -> by congruence.
        assert (b' = b) as -> by congruence. reflexivity.
      * rewrite list_lookup_insert_ne by lia.
        apply Hrec; auto. lia.
    + subst w. rewrite <- app_assoc. f_equal.
      replace (Z.to_nat (j + 1 - lag))
        with (Datatypes.S (Z.to_nat (j - lag))) by lia.
      symmetry. apply diff_warnings_S.
      replace (Z.to_nat lag + Z.to_nat (j - lag))%nat with (Z.to_nat j)
        by lia.
      exact Hb.
  - destruct HI as (Hl & Hrec & Hw).
    exists out. split; [rewrite E; subst w; reflexivity|].
    split; [exact Hl|].
    intros i a b Ha Hb. apply Hrec; auto.
    apply lookup_lt_Some in Hb. unfold size. lia.
Qed.

End GuardedDiff.

Lemma diffC_lagN_na (x : NumericVector) (lag : Z) :
  diff_lagN_func.diffC x lag = na_diff_func.diffC x lag false.
Proof. reflexivity. Qed.

Lemma na_diffC_stop (x : NumericVector) (lag : Z) (na_rm : bool) :
  size x <= lag ->
  run (na_diff_func.diffC x lag na_rm) = (Failed (StopError lag_message), []).
Proof.
  intros H. unfold run, na_diff_func.diffC.
  destruct (Z.geb_spec lag (size x)); [reflexivity|lia].
Qed.

Lemma na_diffC_value (x : NumericVector) (lag : Z) (na_rm : bool) :
  0 <= lag < size x ->
  exists out,
    run (na_diff_func.diffC x lag na_rm)
    = (Value out, diff_warnings na_rm x lag (Z.to_nat (size x - lag))) /\
    diff_of na_rm lag x out.
Proof.
  intros H.
  destruct (diff_loop na_rm x lag
              (replicate (Z.to_nat (size x - lag)) (of_int 0)) [] H)
    as (out & E & Hout).
  { rewrite length_replicate. lia. }
  exists out. split; [|exact Hout].
  unfold run, na_diff_func.diffC.
  destruct (Z.geb_spec lag (size x)); [lia|].
  rewrite (bind_value _ _ _ _ _
             (NumericVector_new_value (size x - lag) [] ltac:(lia))).
  exact E.
Qed.

(** The fixed-lag kernel has no test on the length: from two elements on
    it is the parametrized kernel at lag 1, on one element it returns the
    empty vector, and on none it asks for a vector of length -1. *)
Lemma diffC_lagOne_lagN (x : NumericVector) :
  1 < size x ->
  diff_lagOne_func.diffC x = diff_lagN_func.diffC x 1.
Proof.
  intros H. unfold diff_lagN_func.diffC.
  destruct (Z.geb_spec 1 (size x)); [lia|]. reflexivity.
Qed.

Lemma diffC_lagOne_singleton (d : double) :
  run (diff_lagOne_func.diffC [d]) = (Value [], []).
Proof. reflexivity. Qed.

Lemma diffC_lagOne_empty :
  run (diff_lagOne_func.diffC []) = (Failed (NegativeLength (-1)), []).
Proof. reflexivity. Qed.

(** ** Loops that read one element per iteration *)

(** A loop whose body reads [x[i]] and combines it with its state by [f]
    is the left fold of [f] over the elements it visits. *)
Lemma for_from_fold {S : Type} (f : S -> double -> S) (x : NumericVector)
    (body : Z -> S -> M S) :
  (forall i s w d, 0 <= i -> x !! Z.to_nat i = Some d ->
     body i s w = (Value (f s d), w)) ->
  forall (k : nat) i s w,
    0 <= i -> i + Z.of_nat k <= size x ->
    for_from k i body s w
    = (Value (fold_left f (take k (drop (Z.to_nat i) x)) s), w).
Proof.
  intros Hbody. induction k as [|k IH]; intros i s w Hi Hk.
  - rewrite take_0. reflexivity.
  - destruct (lookup_size x i ltac:(lia)) as [d Hd].
    simpl for_from.
    rewrite (bind_value _ _ _ _ _ (Hbody i s w d Hi Hd)).
    rewrite IH by lia.
    rewrite (drop_S x d (Z.to_nat i) Hd). simpl.
    replace (Z.to_nat (i + 1)) with (Datatypes.S (Z.to_nat i)) by lia.
    reflexivity.
Qed.

Lemma for_loop_fold {S : Type} (f : S -> double -> S) (x : NumericVector)
    (body : Z -> S -> M S) (lo : Z) s w :
  (forall i s w d, 0 <= i -> x !! Z.to_nat i = Some d ->
     body i s w = (Value (f s d), w)) ->
  0 <= lo <= size x ->
  for_loop lo (size x) body s w
  = (Value (fold_left f (drop (Z.to_nat lo) x) s), w).
Proof.
  intros Hbody Hlo. unfold for_loop.
  rewrite (for_from_fold f x body Hbody) by lia.
  rewrite take_ge; [reflexivity|].
  rewrite length_drop. unfold size in *. lia.
Qed.

(** The loop over the whole vector. *)
Lemma read_loop {S : Type} (f : S -> double -> S) (x : NumericVector) s w :
  for_loop 0 (size x) (fun i s => xi <- vget x i ;; ret (f s xi)) s w
  = (Value (fold_left f x s), w).
Proof.
  rewrite (for_loop_fold f x); [reflexivity| |unfold size; lia].
  intros i s' w' d Hi Hd.
  rewrite (bind_value _ _ _ _ _ (vget_value x i d w' Hi Hd)). reflexivity.
Qed.

(** ** The variance *)

Section VarianceSpec.

Variable pow : double -> double -> double.

Lemma varC_short (x : NumericVector) :
  size x < 2 -> run (varC pow x) = (Value NA_REAL, []).
Proof.
  intros H. unfold run, varC.
  destruct (Z.ltb_spec (size x) 2); [reflexivity|lia].
Qed.

Lemma varC_long (x : NumericVector) :
  2 <= size x -> run (varC pow x) = (Value (sample_variance pow x), []).
Proof.
  intros H. unfold run, varC.
  destruct (Z.ltb_spec (size x) 2); [lia|].
  erewrite bind_value;
    [|apply (read_loop
               (fun m xi => dadd m (ddiv xi (of_int (size x)))))].
  erewrite bind_value;
    [|apply (read_loop
               (fun s xi =>
                  dadd s (pow (dsub xi (mean_by_parts x)) (of_int 2))))].
  reflexivity.
Qed.

End VarianceSpec.

(** ** The range *)

Lemma range_update_value (x : NumericVector) (i : Z) acc (d : double) w :
  0 <= i -> x !! Z.to_nat i = Some d ->
  range_update x i acc w = (Value (range_step acc d), w).
Proof.
  intros Hi Hd. destruct acc as [omin omax]. unfold range_update.
  rewrite (bind_value _ _ _ _ _ (vget_value x i d w Hi Hd)).
  rewrite (bind_value _ _ _ _ _ (vget_value x i d w Hi Hd)).
  reflexivity.
Qed.

Lemma range_result_value (acc : double * double) w :
  range_result acc w = (Value [fst acc; snd acc], w).
Proof. destruct acc. reflexivity. Qed.

Lemma std_min_same (a : double) : std_min a a = a.
Proof. unfold std_min. destruct (dlt a a); reflexivity. Qed.

Lemma std_max_same (a : double) : std_max a a = a.
Proof. unfold std_max. destruct (dlt a a); reflexivity. Qed.

Lemma is_range_singleton (d : double) : not_na d -> is_range [d] d d.
Proof.
  intros Hd. unfold is_range.
  split; [apply list_elem_of_singleton; reflexivity|].
  split; [apply list_elem_of_singleton; reflexivity|].
  intros y Hy. apply list_elem_of_singleton in Hy. subst y.
  split; apply dle_refl; exact Hd.
Qed.

Lemma is_range_step (seen : list double) (lo hi d : double) :
  is_range seen lo hi -> not_na d ->
  is_range (seen ++ [d]) (std_min d lo) (std_max d hi).
Proof.
  intros (Hlo & Hhi & Hall) Hd.
  destruct (Hall lo Hlo) as [Hlolo _]. destruct (Hall hi Hhi) as [_ Hhihi].
  apply dle_not_na in Hlolo, Hhihi.
  destruct Hlolo as [Hnlo _], Hhihi as [Hnhi _].
  unfold std_min, std_max. split; [|split; [|intros y H; split]].
  - destruct (dlt lo d); apply elem_of_app; [left; exact Hlo|].
    right. apply list_elem_of_singleton. reflexivity.
  - destruct (dlt d hi); apply elem_of_app; [left; exact Hhi|].
    right. apply list_elem_of_singleton. reflexivity.
  - apply elem_of_app in H. destruct (dlt lo d) eqn:E.
    + destruct H as [H|H]; [apply Hall, H|].
      apply list_elem_of_singleton in H. subst y. apply dlt_dle, E.
    + destruct H as [H|H].
      * apply dle_trans with lo; [|apply Hall, H].
        apply dlt_false_dle; auto.
      * apply list_elem_of_singleton in H. subst y. apply dle_refl, Hd.
  - apply elem_of_app in H. destruct (dlt d hi) eqn:E.
    + destruct H as [H|H]; [apply Hall, H|].
      apply list_elem_of_singleton in H. subst y. apply dlt_dle, E.
    + destruct H as [H|H].
      * apply dle_trans with hi; [apply Hall, H|].
        apply dlt_false_dle; auto.
      * apply list_elem_of_singleton in H. subst y. apply dle_refl, Hd.
Qed.

Lemma is_range_fold (l : list double) :
  forall (seen : list double) (acc : double * double),
    is_range seen (fst acc) (snd acc) ->
    Forall not_na l ->
    is_range (seen ++ l) (fst (fold_left range_step l acc))
                         (snd (fold_left range_step l acc)).
Proof.
  induction l as [|d l IH]; intros seen acc Hacc Hl.
  - rewrite app_nil_r. exact Hacc.
  - apply Forall_cons in Hl. destruct Hl as [Hd Hl].
    replace (seen ++ d :: l) with ((seen ++ [d]) ++ l)
      by (rewrite <- app_assoc; reflexivity).
    simpl. apply IH; [|exact Hl].
    apply is_range_step; assumption.
Qed.

(** On a vector with a first element the kernel returns the two
    accumulators of the fold over the other elements. *)
Lemma rangeC_value (x0 : double) (x' : NumericVector) w :
  rangeC (x0 :: x') w
  = (Value [fst (fold_left range_step x' (x0, x0));
            snd (fold_left range_step x' (x0, x0))], w).
Proof.
  set (x := x0 :: x').
  assert (H0 : x !! Z.to_nat 0 = Some x0) by reflexivity.
  assert (Hn : 1 <= size x) by (unfold x, size; simpl; lia).
  unfold rangeC.
  rewrite (bind_value _ _ _ _ _ (vget_value x 0 x0 w ltac:(lia) H0)).
  rewrite (bind_value _ _ _ _ _ (vget_value x 0 x0 w ltac:(lia) H0)).
  destruct (Z.eqb_spec (size x) 0); [lia|].
  erewrite bind_value;
    [|apply (for_loop_fold range_step x);
      [intros; apply range_update_value; assumption|lia]].
  apply range_result_value.
Qed.

Lemma na_rangeC_unfold (x : NumericVector) (na_rm : bool) :
  na_rangeC x na_rm =
  (omin <- vget x 0 ;;
   omax <- vget x 0 ;;
   if size x =? 0 then stop empty_message else
   r <- for_loop_ret 0 (size x) (na_range_body na_rm x) (omin, omax) ;;
   match r with
   | Return out_na => ret out_na
   | Next acc => range_result acc
   end).
Proof. reflexivity. Qed.

(** With the test off the loop never returns early: it is the loop of
    [rangeC], started one index earlier. *)
Lemma na_range_loop_off (x : NumericVector) (k : nat) :
  forall i acc w,
    for_from_ret k i (na_range_body false x) acc w
    = bind (for_from k i (range_update x) acc) (fun a => ret (Next a)) w.
Proof.
  induction k as [|k IH]; intros i acc w; [reflexivity|].
  simpl. unfold bind.
  change (na_range_body false x i acc w)
    with (bind (range_update x i acc)
            (fun a => ret (@Next _ (list double) a)) w).
  unfold bind.
  destruct (range_update x i acc w) as [[a|e] w']; [|reflexivity].
  simpl. apply IH.
Qed.

Lemma na_rangeC_off (x : NumericVector) w :
  na_rangeC x false w = rangeC x w.
Proof.
  destruct x as [|x0 x']; [reflexivity|].
  set (x := x0 :: x').
  assert (H0 : x !! Z.to_nat 0 = Some x0) by reflexivity.
  assert (Hn : size x = Z.of_nat (Datatypes.S (length x'))) by reflexivity.
  rewrite na_rangeC_unfold. unfold rangeC.
  rewrite !(bind_value _ _ _ _ _ (vget_value x 0 x0 w ltac:(lia) H0)).
  destruct (Z.eqb_spec (size x) 0); [lia|].
  unfold for_loop_ret, for_loop.
  replace (Z.to_nat (size x - 0)) with (Datatypes.S (length x')) by lia.
  replace (Z.to_nat (size x - 1)) with (length x') by lia.
  unfold bind at 1. rewrite na_range_loop_off.
  rewrite for_from_S. unfold bind.
  rewrite (range_update_value x 0 (x0, x0) x0 w ltac:(lia) H0).
  unfold range_step. simpl fst. simpl snd.
  rewrite std_min_same, std_max_same.
  change (0 + 1) with 1.
  destruct (for_from (length x') 1 (range_update x) (x0, x0) w)
    as [[a|e] w']; reflexivity.
Qed.

Lemma na_range_body_on (x : NumericVector) (i : Z) acc (xi : double) w :
  0 <= i -> x !! Z.to_nat i = Some xi ->
  na_range_body true x i acc w
  = (Value (if is_na xi then Return [NA_REAL]
            else Next (range_step acc xi)), w).
Proof.
  intros Hi Hxi. unfold na_range_body.
  rewrite (bind_value _ _ _ _ _ (na_test_value true x i xi w Hi Hxi)).
  rewrite andb_true_l. destruct (is_na xi); [reflexivity|].
  rewrite (bind_value _ _ _ _ _ (range_update_value x i acc xi w Hi Hxi)).
  reflexivity.
Qed.

(** With the test on, a missing value among the elements still to visit
    makes the loop return the one-element missing result. *)
Lemma na_range_loop_missing (x : NumericVector) (k : nat) :
  forall i acc w,
    0 <= i -> i + Z.of_nat k <= size x ->
    (exists (j : nat) (d : double),
        i <= Z.of_nat j < i + Z.of_nat k /\ x !! j = Some d /\
        is_na d = true) ->
    for_from_ret k i (na_range_body true x) acc w
    = (Value (Return [NA_REAL]), w).
Proof.
  induction k as [|k IH]; intros i acc w Hi Hk (j & d & Hj & Hd & Hna).
  - lia.
  - destruct (lookup_size x i ltac:(lia)) as [xi Hxi].
    simpl for_from_ret.
    rewrite (bind_value _ _ _ _ _ (na_range_body_on x i acc xi w Hi Hxi)).
    destruct (is_na xi) eqn:E; [reflexivity|].
    apply IH; [lia|lia|].
    exists j, d. repeat split; auto; try lia.
    destruct (decide (Z.of_nat j = i)) as [<-|Hne]; [|lia].
    rewrite Nat2Z.id in Hxi. congruence.
Qed.

Lemma na_rangeC_missing (x : NumericVector) :
  (exists (j : nat) (d : double), x !! j = Some d /\ is_na d = true) ->
  run (na_rangeC x true) = (Value [NA_REAL], []).
Proof.
  intros (j & d & Hd & Hna).
  destruct x as [|x0 x'] eqn:Ex; [rewrite lookup_nil in Hd; discriminate|].
  rewrite <- Ex in *.
  assert (H0 : x !! Z.to_nat 0 = Some x0) by (subst x; reflexivity).
  assert (Hn : 1 <= size x) by (subst x; unfold size; simpl; lia).
  unfold run. rewrite na_rangeC_unfold.
  rewrite !(bind_value _ _ _ _ _ (vget_value x 0 x0 [] ltac:(lia) H0)).
  destruct (Z.eqb_spec (size x) 0); [lia|].
  unfold for_loop_ret.
  rewrite (bind_value _ _ _ (Return [NA_REAL]) []); [reflexivity|].
  apply na_range_loop_missing; [lia|lia|].
  exists j, d. repeat split; auto; try lia.
  apply lookup_lt_Some in Hd. unfold size. lia.
Qed.

(** ** Computations that signal nothing *)

Lemma silent_ret {A : Type} (a : A) : silent (ret a).
Proof. intros w. reflexivity. Qed.

Lemma silent_throw {A : Type} (e : error) : silent (@throw A e).
Proof. intros w. reflexivity. Qed.

Lemma silent_bind {A B : Type} (m : M A) (k : A -> M B) :
  silent m -> (forall a, silent (k a)) -> silent (bind m k).
Proof.
  intros Hm Hk w. unfold bind. specialize (Hm w).
  destruct (m w) as [[a|e] w']; simpl in Hm; subst w'; [apply Hk|reflexivity].
Qed.

Lemma silent_vget (x : NumericVector) (i : Z) : silent (vget x i).
Proof.
  unfold vget. destruct (if 0 <=? i then x !! Z.to_nat i else None);
    [apply silent_ret|apply silent_throw].
Qed.

Lemma silent_vset (out : NumericVector) (i : Z) (d : double) :
  silent (vset out i d).
Proof.
  unfold vset. destruct ((0 <=? i) && (i <? size out));
    [apply silent_ret|apply silent_throw].
Qed.

Lemma silent_new (n : Z) : silent (NumericVector_new n).
Proof.
  unfold NumericVector_new. destruct (n <? 0);
    [apply silent_throw|apply silent_ret].
Qed.

Lemma silent_na_test (na_rm : bool) (x : NumericVector) (i : Z) :
  silent (na_test na_rm x i).
Proof.
  unfold na_test. destruct na_rm; [|apply silent_ret].
  apply silent_bind; [apply silent_vget|intros; apply silent_ret].
Qed.

Lemma silent_range_update (x : NumericVector) (i : Z) acc :
  silent (range_update x i acc).
Proof.
  destruct acc. unfold range_update.
  repeat (apply silent_bind; [apply silent_vget|intros]). apply silent_ret.
Qed.

Lemma silent_range_result acc : silent (range_result acc).
Proof. intros w. rewrite range_result_value. reflexivity. Qed.

Lemma silent_for_from_ret {S R : Type} (body : Z -> S -> M (step S R)) :
  (forall i s, silent (body i s)) ->
  forall k i s, silent (for_from_ret k i body s).
Proof.
  intros Hbody. induction k as [|k IH]; intros i s; [apply silent_ret|].
  simpl. apply silent_bind; [apply Hbody|].
  intros [s'|v]; [apply IH|apply silent_ret].
Qed.

Lemma silent_na_range_body (na_rm : bool) (x : NumericVector) i acc :
  silent (na_range_body na_rm x i acc).
Proof.
  unfold na_range_body. apply silent_bind; [apply silent_na_test|].
  intros [|].
  - apply silent_bind; [apply silent_new|intros; apply silent_ret].
  - apply silent_bind; [apply silent_range_update|intros; apply silent_ret].
Qed.

(** [na_rangeC] has no call of [warning]. *)
Lemma na_rangeC_silent (x : NumericVector) (na_rm : bool) :
  silent (na_rangeC x na_rm).
Proof.
  rewrite na_rangeC_unfold.
  apply silent_bind; [apply silent_vget|intros omin].
  apply silent_bind; [apply silent_vget|intros omax].
  destruct (size x =? 0); [apply silent_throw|].
  apply silent_bind.
  - apply silent_for_from_ret. intros. apply silent_na_range_body.
  - intros [acc|v]; [apply silent_range_result|apply silent_ret].
Qed.

(** ** The warnings of a whole call *)

Lemma scan_warnings_full (na_rm : bool) (x : NumericVector) :
  scan_warnings na_rm x (length x - 1)
  = replicate (if na_rm then na_count (drop 1 x) else 0%nat) missing_warning.
Proof.
  unfold scan_warnings. rewrite take_ge; [reflexivity|].
  rewrite length_drop. lia.
Qed.

Lemma diff_warnings_full (na_rm : bool) (x : NumericVector) (lag : Z) :
  diff_warnings na_rm x lag (Z.to_nat (size x - lag))
  = replicate (if na_rm then na_count (drop (Z.to_nat lag) x) else 0%nat)
              missing_warning.
Proof.
  unfold diff_warnings. rewrite take_ge; [reflexivity|].
  rewrite length_drop. unfold size. lia.
Qed.

Lemma na_count_drop_pos (lo : nat) (x : NumericVector) :
  (0 < na_count (drop lo x))%nat <-> missing_from lo x.
Proof.
  rewrite na_count_pos. unfold missing_from. split.
  - intros (i & d & Hd & Hna). rewrite lookup_drop in Hd.
    exists (lo + i)%nat, d. repeat split; auto. lia.
  - intros (i & d & Hi & Hd & Hna).
    exists (i - lo)%nat, d. rewrite lookup_drop.
    replace (lo + (i - lo))%nat with i by lia. auto.
Qed.

Lemma replicate_warned (c : nat) :
  replicate c missing_warning <> [] <-> (0 < c)%nat.
Proof.
  destruct c; simpl; split; intros H; try lia; congruence.
Qed.

(** ** The recurrence of the cumulative kernels *)

Lemma scan_of_off (op : double -> double -> double) (x out : NumericVector) :
  scan_of op false x out -> recurrence op x out.
Proof. intros H. exact H. Qed.

Lemma scan_kernel_off (op : double -> double -> double) (x : NumericVector) :
  x <> [] ->
  exists out,
    run (scan_kernel op false x) = (Value out, []) /\ recurrence op x out.
Proof.
  intros Hx. destruct (scan_kernel_spec op false x Hx) as (out & E & H).
  exists out. split; [exact E|apply scan_of_off, H].
Qed.

(** Every output of a recurrence satisfies what the inputs satisfy and the
    operation keeps. *)
Lemma recurrence_closed (P : double -> Prop)
    (op : double -> double -> double) (x out : NumericVector) :
  (forall a b, P a -> P b -> P (op a b)) ->
  recurrence op x out -> Forall P x ->
  forall (i : nat) (d : double), out !! i = Some d -> P d.
Proof.
  intros Hop (Hlen & H0 & Hrec) Hx.
  induction i as [|i IH]; intros d Hd.
  - rewrite H0 in Hd. exact (proj1 (Forall_lookup P x) Hx _ _ Hd).
  - assert (Hi : (i < length out)%nat)
      by (apply lookup_lt_Some in Hd; lia).
    destruct (lookup_lt_is_Some_2 out i Hi) as [a Ha].
    assert (Hxi : (Datatypes.S i < length x)%nat)
      by (apply lookup_lt_Some in Hd; lia).
    destruct (lookup_lt_is_Some_2 x _ Hxi) as [b Hb].
    assert (E : out !! Datatypes.S i = Some (op a b)).
    { apply Hrec; [lia| |exact Hb].
      replace (Datatypes.S i - 1)%nat with i by lia. exact Ha. }
    rewrite E in Hd. injection Hd as <-.
    apply Hop; [apply (IH a Ha)|].
    exact (proj1 (Forall_lookup P x) Hx _ _ Hb).
Qed.

Lemma std_max_not_na (a b : double) :
  not_na a -> not_na b -> not_na (std_max a b).
Proof. intros Ha Hb. unfold std_max. destruct (dlt a b); assumption. Qed.

Lemma std_min_not_na (a b : double) :
  not_na a -> not_na b -> not_na (std_min a b).
Proof. intros Ha Hb. unfold std_min. destruct (dlt b a); assumption. Qed.

Lemma std_max_ge (a b : double) : not_na a -> dle a (std_max a b) = true.
Proof.
  intros Ha. unfold std_max. destruct (dlt a b) eqn:E;
    [apply dlt_dle, E|apply dle_refl, Ha].
Qed.

Lemma std_min_le (a b : double) : not_na a -> dle (std_min a b) a = true.
Proof.
  intros Ha. unfold std_min. destruct (dlt b a) eqn:E;
    [apply dlt_dle, E|apply dle_refl, Ha].
Qed.

(** ** The kernels on small vectors *)

Example cumsumC_1234 :
  run (cumsumC (map of_int [1; 2; 3; 4]) false)
  = (Value (map of_int [1; 3; 6; 10]), []).
Proof. vm_compute. reflexivity. Qed.

Example diffC_lagOne_cumsum :
  run (diff_lagOne_func.diffC (map of_int [1; 3; 6; 10]))
  = (Value (map of_int [2; 3; 4]), []).
Proof. vm_compute. reflexivity. Qed.

Example rangeC_5193 :
  run (rangeC (map of_int [5; 1; 9; 3])) = (Value (map of_int [1; 9]), []).
Proof. vm_compute. reflexivity. Qed.

(** The mean is 5 and the squared deviations sum to 32: the variance is
    the double nearest to 32/7. *)
Example varC_eight :
  run (varC pow_square (map of_int [2; 4; 4; 4; 5; 5; 7; 9]))
  = (Value (ddiv (of_int 32) (of_int 7)), []).
Proof. vm_compute. reflexivity. Qed.

(** With the policy off a missing value goes through [std::min] and
    [std::max] like any other double: every comparison with it is false. *)
Example na_rangeC_off_5_NA_7 :
  run (na_rangeC [of_int 5; NA_REAL; of_int 7] false)
  = (Value [of_int 7; of_int 7], []).
Proof. vm_compute. reflexivity. Qed.

(** * The kernels against their specification *)

(** ** Missing values in the cumulative sum *)

(** Once an output is missing, so is the next one: a skipped position
    stores the missing value in [out[i]], and the next iteration adds to
    [out[i - 1]]. *)
Lemma cumsumC_missing_absorbs (x : NumericVector) :
  x <> [] ->
  exists out w,
    run (cumsumC x true) = (Value out, w) /\
    length out = length x /\
    forall (i : nat) (a : double),
      (1 <= i < length x)%nat -> out !! (i - 1)%nat = Some a ->
      is_na a = true -> out !! i = Some NA_REAL.
Proof.
  intros Hx. rewrite cumsumC_scan.
  destruct (scan_kernel_spec dadd true x Hx) as (out & E & Hl & H0 & Hrec).
  exists out, (scan_warnings true x (length x - 1)).
  split; [exact E|]. split; [exact Hl|].
  intros i a Hi Ha Hna.
  destruct (lookup_lt_is_Some_2 x i ltac:(lia)) as [b Hb].
  rewrite (Hrec i a b ltac:(lia) Ha Hb).
  destruct a; try discriminate.
  destruct (true && is_na b); reflexivity.
Qed.

(** C1, as the code has it.  On [1, MISSING, 3] with the skip policy on,
    [cumsumC] returns [1, MISSING, MISSING] and signals one warning: the
    skipped position receives the missing value, and the element after it
    is added to [out[i - 1]], which is that missing value, so the running
    total is not carried past the skipped position. *)
Theorem cumsumC_skip_propagates :
  run (cumsumC [of_int 1; NA_REAL; of_int 3] true)
  = (Value [of_int 1; NA_REAL; NA_REAL], [missing_warning]).
Proof. vm_compute. reflexivity. Qed.

(** C1, as stated, fails: the result on [1, MISSING, 3] is not
    [1, MISSING, 4]. *)
Lemma cumsumC_skip_not_carried :
  fst (run (cumsumC [of_int 1; NA_REAL; of_int 3] true))
  <> Value [of_int 1; NA_REAL; of_int 4].
Proof. vm_compute. intros H. discriminate H. Qed.

(** ** The empty vector in the range kernels *)

(** C2, at the empty vector.  Both range kernels read [x[0]] before they
    test the length: on the empty vector the first action of the call is
    a subscript outside the vector, and the [stop] that reports the empty
    input comes after it. *)
Theorem range_empty_reads_first :
  run (rangeC []) = (Failed (OutOfBounds 0), []) /\
  forall na_rm, run (na_rangeC [] na_rm) = (Failed (OutOfBounds 0), []).
Proof. split; [reflexivity|]. intros na_rm. reflexivity. Qed.

(** ** The length test of the lagged differences *)

(** The two kernels with a [lag] parameter stop when [lag >= length(x)]
    and otherwise return [length(x) - lag] elements. *)
Lemma diffC_guarded (x : NumericVector) (lag : Z) (na_rm : bool) :
  0 <= lag ->
  (size x <= lag ->
     run (diff_lagN_func.diffC x lag) = (Failed (StopError lag_message), [])
     /\ run (na_diff_func.diffC x lag na_rm)
        = (Failed (StopError lag_message), [])) /\
  (lag < size x ->
     (exists out, run (diff_lagN_func.diffC x lag) = (Value out, []) /\
                  Z.of_nat (length out) = size x - lag) /\
     (exists out w, run (na_diff_func.diffC x lag na_rm) = (Value out, w) /\
                    Z.of_nat (length out) = size x - lag)).
Proof.
  intros Hlag. split; intros H.
  - rewrite diffC_lagN_na. split; apply na_diffC_stop; exact H.
  - split.
    + rewrite diffC_lagN_na.
      destruct (na_diffC_value x lag false ltac:(lia)) as (out & E & Hl & _).
      exists out. split; [exact E|exact Hl].
    + destruct (na_diffC_value x lag na_rm ltac:(lia)) as (out & E & Hl & _).
      eexists out, _. split; [exact E|exact Hl].
Qed.

(** C3, at a one-element vector.  The fixed-lag kernel has no length
    test: with lag 1 and length 1 it returns the empty vector, where the
    two kernels with a [lag] parameter stop on the same input. *)
Theorem diffC_lagOne_unguarded :
  run (diff_lagOne_func.diffC [of_int 5]) = (Value [], []) /\
  run (diff_lagN_func.diffC [of_int 5] 1)
  = (Failed (StopError lag_message), []) /\
  run (na_diff_func.diffC [of_int 5] 1 false)
  = (Failed (StopError lag_message), []).
Proof. repeat split; reflexivity. Qed.

(** ** The left-fold recurrence *)

(** C4.  On a non-empty vector, [cummaxC], [cumminC] and [cumprodC] return
    an output of the same length whose element 0 is [x[0]] and whose
    element [i >= 1] is [max], [min] or [*] of the output at [i - 1] and
    [x[i]]. *)
Theorem cumulative_recurrence (x : NumericVector) :
  x <> [] ->
  (exists out, run (cummaxC x) = (Value out, []) /\ recurrence std_max x out) /\
  (exists out, run (cumminC x) = (Value out, []) /\ recurrence std_min x out) /\
  (exists out, run (cumprodC x) = (Value out, []) /\ recurrence dmul x out).
Proof.
  intros Hx. rewrite cummaxC_scan, cumminC_scan, cumprodC_scan.
  repeat split; apply scan_kernel_off; exact Hx.
Qed.

Lemma cumulative_recurrence_witness :
  let x := [of_int 3; of_int 1; of_int 4] in
  x <> [] /\
  ((exists out, run (cummaxC x) = (Value out, []) /\ recurrence std_max x out) /\
   (exists out, run (cumminC x) = (Value out, []) /\ recurrence std_min x out) /\
   (exists out, run (cumprodC x) = (Value out, []) /\ recurrence dmul x out)).
Proof.
  intros x. assert (H : x <> []) by discriminate.
  split; [exact H|exact (cumulative_recurrence x H)].
Defined.

(** ** The variance *)

(** C5.  [varC] returns the missing value on fewer than two elements, and
    from two elements on the sum of the squared deviations from the mean
    divided by [n - 1], the mean being the sum of the [x[i] / n]. *)
Theorem varC_sample_variance (pow : double -> double -> double)
    (x : NumericVector) :
  run (varC pow x)
  = (Value (if size x <? 2 then NA_REAL else sample_variance pow x), []).
Proof.
  destruct (Z.ltb_spec (size x) 2);
    [apply varC_short|apply varC_long]; assumption.
Qed.

(** ** The short circuit of the missing-aware range *)

(** C6.  With the skip policy on, a missing element at any position of a
    non-empty vector makes [na_rangeC] return the one-element missing
    result. *)
Theorem na_rangeC_short_circuit (x : NumericVector) :
  x <> [] ->
  (exists (i : nat) (d : double), x !! i = Some d /\ is_na d = true) ->
  run (na_rangeC x true) = (Value [NA_REAL], []).
Proof. intros _ H. apply na_rangeC_missing, H. Qed.

Lemma na_rangeC_short_circuit_witness :
  let x := [of_int 5; NA_REAL; of_int 7] in
  x <> [] /\
  (exists (i : nat) (d : double), x !! i = Some d /\ is_na d = true) /\
  run (na_rangeC x true) = (Value [NA_REAL], []).
Proof.
  intros x. assert (H : x <> []) by discriminate.
  assert (Hna : exists (i : nat) (d : double),
             x !! i = Some d /\ is_na d = true).
  { exists 1%nat, NA_REAL. split; reflexivity. }
  split; [exact H|]. split; [exact Hna|].
  exact (na_rangeC_short_circuit x H Hna).
Defined.

(** ** The asymmetric test of the missing-aware difference *)

(** C7.  In the missing-aware [diffC] with the skip policy on, for every
    pair of indices [(i, i + lag)] of the vector: when the later element
    is missing the output at [i] is the missing value and a warning has
    been signalled; when the later element is present the output is the
    difference [x[i + lag] - x[i]], whether or not the earlier element is
    missing.  The earlier element is not tested: the log of the call
    holds one warning for each missing element from index [lag] on and
    nothing else, so an element that is missing at the earlier index of
    its pairs only adds no warning. *)
Theorem na_diffC_later_index (x : NumericVector) (lag : Z) :
  0 <= lag < size x ->
  exists out w,
    run (na_diff_func.diffC x lag true) = (Value out, w) /\
    Z.of_nat (length out) = size x - lag /\
    w = replicate (na_count (drop (Z.to_nat lag) x)) missing_warning /\
    forall (i : nat) (a b : double),
      x !! i = Some a -> x !! (i + Z.to_nat lag)%nat = Some b ->
      (is_na b = true -> out !! i = Some NA_REAL /\ missing_warning ∈ w) /\
      (is_na b = false -> out !! i = Some (dsub b a)).
Proof.
  intros Hlag.
  destruct (na_diffC_value x lag true Hlag) as (out & E & Hl & Hout).
  rewrite diff_warnings_full in E.
  eexists out, _. split; [exact E|]. split; [exact Hl|].
  split; [reflexivity|].
  intros i a b Ha Hb. specialize (Hout i a b Ha Hb). split; intros Hna.
  - rewrite Hna in Hout. split; [exact Hout|].
    apply elem_of_replicate. split; [reflexivity|].
    assert (0 < na_count (drop (Z.to_nat lag) x))%nat; [|lia].
    apply na_count_drop_pos. exists (i + Z.to_nat lag)%nat, b.
    repeat split; auto. lia.
  - rewrite Hna in Hout. exact Hout.
Qed.

Lemma na_diffC_later_index_witness :
  let x := [NA_REAL; of_int 3; NA_REAL; of_int 10] in
  0 <= 1 < size x /\
  exists out w,
    run (na_diff_func.diffC x 1 true) = (Value out, w) /\
    Z.of_nat (length out) = size x - 1 /\
    w = replicate (na_count (drop (Z.to_nat 1) x)) missing_warning /\
    forall (i : nat) (a b : double),
      x !! i = Some a -> x !! (i + Z.to_nat 1)%nat = Some b ->
      (is_na b = true -> out !! i = Some NA_REAL /\ missing_warning ∈ w) /\
      (is_na b = false -> out !! i = Some (dsub b a)).
Proof.
  intros x. assert (H : 0 <= 1 < size x) by (unfold x, size; simpl; lia).
  split; [exact H|exact (na_diffC_later_index x 1 H)].
Defined.

(** ** The range of a vector *)

(** C8.  On a non-empty vector without missing values, [rangeC] returns
    two elements, in this order: a least element of [x] and a greatest
    element of [x]. *)
Theorem rangeC_min_max (x : NumericVector) :
  x <> [] -> Forall not_na x ->
  exists lo hi,
    run (rangeC x) = (Value [lo; hi], []) /\ is_range x lo hi.
Proof.
  intros Hx Hna. destruct x as [|x0 x']; [congruence|].
  apply Forall_cons in Hna. destruct Hna as [H0 Hna].
  eexists _, _. split; [apply rangeC_value|].
  apply (is_range_fold x' [x0] (x0, x0)); [|exact Hna].
  apply is_range_singleton, H0.
Qed.

Lemma rangeC_min_max_witness :
  let x := [of_int 5; of_int 1; of_int 9; of_int 3] in
  x <> [] /\ Forall not_na x /\
  exists lo hi,
    run (rangeC x) = (Value [lo; hi], []) /\ is_range x lo hi.
Proof.
  intros x. assert (H : x <> []) by discriminate.
  assert (Hna : Forall not_na x) by (repeat constructor).
  split; [exact H|]. split; [exact Hna|exact (rangeC_min_max x H Hna)].
Defined.

(** ** Monotone outputs *)

(** C10.  On a non-empty vector without missing values, each output of
    [cummaxC] is at least the output before it, and each output of
    [cumminC] is at most the output before it. *)
Theorem cummax_cummin_monotone (x : NumericVector) :
  x <> [] -> Forall not_na x ->
  (exists out,
     run (cummaxC x) = (Value out, []) /\ length out = length x /\
     forall (i : nat) (a b : double),
       (1 <= i)%nat -> out !! (i - 1)%nat = Some a -> out !! i = Some b ->
       dle a b = true) /\
  (exists out,
     run (cumminC x) = (Value out, []) /\ length out = length x /\
     forall (i : nat) (a b : double),
       (1 <= i)%nat -> out !! (i - 1)%nat = Some a -> out !! i = Some b ->
       dle b a = true).
Proof.
  intros Hx Hna. rewrite cummaxC_scan, cumminC_scan. split.
  - destruct (scan_kernel_off std_max x Hx) as (out & E & Hrec).
    exists out. split; [exact E|]. split; [apply Hrec|].
    intros i a b Hi Ha Hb.
    assert (Pa : not_na a)
      by exact (recurrence_closed not_na std_max x out std_max_not_na
                  Hrec Hna _ a Ha).
    destruct Hrec as (Hl & _ & Hrec).
    destruct (lookup_lt_is_Some_2 x i) as [xi Hxi];
      [apply lookup_lt_Some in Hb; lia|].
    rewrite (Hrec i a xi Hi Ha Hxi) in Hb. injection Hb as <-.
    apply std_max_ge, Pa.
  - destruct (scan_kernel_off std_min x Hx) as (out & E & Hrec).
    exists out. split; [exact E|]. split; [apply Hrec|].
    intros i a b Hi Ha Hb.
    assert (Pa : not_na a)
      by exact (recurrence_closed not_na std_min x out std_min_not_na
                  Hrec Hna _ a Ha).
    destruct Hrec as (Hl & _ & Hrec).
    destruct (lookup_lt_is_Some_2 x i) as [xi Hxi];
      [apply lookup_lt_Some in Hb; lia|].
    rewrite (Hrec i a xi Hi Ha Hxi) in Hb. injection Hb as <-.
    apply std_min_le, Pa.
Qed.

Lemma cummax_cummin_monotone_witness :
  let x := [of_int 2; of_int 7; of_int 1; of_int 8] in
  x <> [] /\ Forall not_na x /\
  (exists out,
     run (cummaxC x) = (Value out, []) /\ length out = length x /\
     forall (i : nat) (a b : double),
       (1 <= i)%nat -> out !! (i - 1)%nat = Some a -> out !! i = Some b ->
       dle a b = true) /\
  (exists out,
     run (cumminC x) = (Value out, []) /\ length out = length x /\
     forall (i : nat) (a b : double),
       (1 <= i)%nat -> out !! (i - 1)%nat = Some a -> out !! i = Some b ->
       dle b a = true).
Proof.
  intros x. assert (H : x <> []) by discriminate.
  assert (Hna : Forall not_na x) by (repeat constructor).
  split; [exact H|]. split; [exact Hna|].
  exact (cummax_cummin_monotone x H Hna).
Defined.

(** ** The skip policy and the warning *)

Lemma cumsumC_warned (x : NumericVector) (na_rm : bool) :
  x <> [] ->
  (warned (cumsumC x na_rm) <-> na_rm = true /\ missing_from 1 x).
Proof.
  intros Hx. unfold warned. rewrite cumsumC_scan.
  destruct (scan_kernel_spec dadd na_rm x Hx) as (out & E & _).
  rewrite E, scan_warnings_full. simpl snd. rewrite replicate_warned.
  destruct na_rm.
  - rewrite na_count_drop_pos. split; [auto|intros [_ H]; exact H].
  - split; [lia|intros [H _]; discriminate H].
Qed.

Lemma na_diffC_warned (x : NumericVector) (lag : Z) (na_rm : bool) :
  0 <= lag ->
  (warned (na_diff_func.diffC x lag na_rm) <->
   na_rm = true /\ missing_from (Z.to_nat lag) x).
Proof.
  intros Hlag. unfold warned.
  destruct (Z.lt_ge_cases lag (size x)) as [Hlt|Hge].
  - destruct (na_diffC_value x lag na_rm ltac:(lia)) as (out & E & _).
    rewrite E, diff_warnings_full. simpl snd. rewrite replicate_warned.
    destruct na_rm.
    + rewrite na_count_drop_pos. split; [auto|intros [_ H]; exact H].
    + split; [lia|intros [H _]; discriminate H].
  - rewrite (na_diffC_stop x lag na_rm Hge). simpl snd. split.
    + intros H. congruence.
    + intros (_ & i & d & Hi & Hd & _). apply lookup_lt_Some in Hd.
      unfold size in Hge. lia.
Qed.

Lemma na_rangeC_not_warned (x : NumericVector) (na_rm : bool) :
  ~ warned (na_rangeC x na_rm).
Proof.
  unfold warned, run. intros H. apply H. apply na_rangeC_silent.
Qed.

(** What the three missing-aware kernels do about the policy.  With the
    skip policy off, every missing-aware
    kernel takes the arithmetic branch at every element and signals
    nothing, whatever the vector holds: [cumsumC] is the left fold of
    [+], the missing-aware [diffC] is the parametrized [diffC] and
    returns the differences, [na_rangeC] returns the two elements that
    [rangeC] returns.  [cumsumC] and the missing-aware [diffC] warn
    exactly when the policy is on and a missing value sits at a tested
    index (from 1 on, from [lag] on); [na_rangeC] never warns. *)
Theorem missing_policy (x : NumericVector) (lag : Z) (na_rm : bool) :
  x <> [] -> 0 <= lag ->
  ((exists out,
      run (cumsumC x false) = (Value out, []) /\ recurrence dadd x out) /\
   (na_diff_func.diffC x lag false = diff_lagN_func.diffC x lag /\
    ~ warned (na_diff_func.diffC x lag false) /\
    (lag < size x ->
     exists out,
       run (na_diff_func.diffC x lag false) = (Value out, []) /\
       Z.of_nat (length out) = size x - lag /\
       forall (i : nat) (a b : double),
         x !! i = Some a -> x !! (i + Z.to_nat lag)%nat = Some b ->
         out !! i = Some (dsub b a))) /\
   (run (na_rangeC x false) = run (rangeC x) /\
    exists lo hi, run (na_rangeC x false) = (Value [lo; hi], []))) /\
  (warned (cumsumC x na_rm) <-> na_rm = true /\ missing_from 1 x) /\
  (warned (na_diff_func.diffC x lag na_rm) <->
   na_rm = true /\ missing_from (Z.to_nat lag) x) /\
  ~ warned (na_rangeC x na_rm).
Proof.
  intros Hx Hlag.
  split; [split; [|split]|split; [|split]].
  - rewrite cumsumC_scan. apply scan_kernel_off, Hx.
  - split; [reflexivity|]. split.
    + intros H. apply (na_diffC_warned x lag false Hlag) in H.
      destruct H as [H _]. discriminate H.
    + intros Hlt.
      destruct (na_diffC_value x lag false ltac:(lia))
        as (out & E & Hl & Hout).
      exists out. split; [exact E|]. split; [exact Hl|exact Hout].
  - split; [unfold run; apply na_rangeC_off|].
    unfold run. rewrite na_rangeC_off.
    destruct x as [|x0 x']; [congruence|].
    eexists _, _. apply rangeC_value.
  - apply cumsumC_warned, Hx.
  - apply na_diffC_warned, Hlag.
  - apply na_rangeC_not_warned.
Qed.

Lemma missing_policy_witness :
  let x := [of_int 1; NA_REAL; of_int 3] in
  x <> [] /\ 0 <= 1 /\
  (warned (cumsumC x true) <-> true = true /\ missing_from 1 x) /\
  (warned (na_diff_func.diffC x 1 true) <->
   true = true /\ missing_from (Z.to_nat 1) x) /\
  ~ warned (na_rangeC x true).
Proof.
  intros x. assert (H : x <> []) by discriminate.
  assert (Hlag : 0 <= 1) by lia.
  split; [exact H|]. split; [exact Hlag|].
  exact (proj2 (missing_policy x 1 true H Hlag)).
Defined.

(** For [na_rangeC] the equivalence of the warning with a missing value
    at a tested index fails: on the vector that holds one missing value,
    with the policy on, the missing value is at a tested index and no
    warning is signalled. *)
Lemma na_rangeC_skips_without_warning :
  ~ (warned (na_rangeC [NA_REAL] true) <->
     true = true /\ missing_from 0 [NA_REAL]).
Proof.
  intros [_ H].
  assert (W : warned (na_rangeC [NA_REAL] true)).
  { apply H. split; [reflexivity|].
    exists 0%nat, NA_REAL. repeat split. lia. }
  apply W. reflexivity.
Qed.

(** C9, at a vector that holds a missing value.  With the policy on and
    a missing value at index 1, which all three kernels test,
    [na_rangeC] returns the one-element missing result and signals
    nothing, where [cumsumC] and the missing-aware [diffC] each signal
    the warning: the skip branch of [na_rangeC] has no call of
    [warning]. *)
Theorem na_rangeC_silent_short_circuit :
  run (na_rangeC [of_int 1; NA_REAL] true) = (Value [NA_REAL], []) /\
  run (cumsumC [of_int 1; NA_REAL] true)
  = (Value [of_int 1; NA_REAL], [missing_warning]) /\
  run (na_diff_func.diffC [of_int 1; NA_REAL] 1 true)
  = (Value [NA_REAL], [missing_warning]).
Proof. repeat split; vm_compute; reflexivity. Qed.

(** * Further properties of the kernels *)

(** ** The lagged differences, value by value *)

(** X1.  On a non-empty vector the fixed-lag [diffC] returns
    [length(x) - 1] elements, the differences of neighbours
    [x[i + 1] - x[i]], and signals nothing; it never stops with the lag
    message. *)
Theorem diffC_lagOne_values (x : NumericVector) :
  x <> [] ->
  exists out,
    run (diff_lagOne_func.diffC x) = (Value out, []) /\
    Z.of_nat (length out) = size x - 1 /\
    forall (i : nat) (a b : double),
      x !! i = Some a -> x !! (i + 1)%nat = Some b ->
      out !! i = Some (dsub b a).
Proof.
  intros Hx. destruct x as [|x0 [|x1 x']]; [congruence| |].
  - exists []. split; [reflexivity|]. split; [reflexivity|].
    intros i a b _ Hb. destruct i; discriminate Hb.
  - set (x := x0 :: x1 :: x').
    assert (Hn : 1 < size x) by (unfold x, size; simpl; lia).
    rewrite (diffC_lagOne_lagN x Hn), diffC_lagN_na.
    destruct (na_diffC_value x 1 false ltac:(lia)) as (out & E & Hl & Hout).
    exists out. split; [exact E|]. split; [exact Hl|exact Hout].
Qed.

Lemma diffC_lagOne_values_witness :
  let x := [of_int 1; of_int 3; of_int 6; of_int 10] in
  x <> [] /\
  exists out,
    run (diff_lagOne_func.diffC x) = (Value out, []) /\
    Z.of_nat (length out) = size x - 1 /\
    forall (i : nat) (a b : double),
      x !! i = Some a -> x !! (i + 1)%nat = Some b ->
      out !! i = Some (dsub b a).
Proof.
  intros x. assert (H : x <> []) by discriminate.
  split; [exact H|exact (diffC_lagOne_values x H)].
Defined.

(** X2.  For a lag that is not negative, the parametrized [diffC] stops
    with the lag message exactly when [lag >= length(x)]; otherwise it
    returns [length(x) - lag] elements, [out[i] = x[i + lag] - x[i]], and
    signals nothing. *)
Theorem diffC_lagN_values (x : NumericVector) (lag : Z) :
  0 <= lag ->
  (size x <= lag ->
   run (diff_lagN_func.diffC x lag) = (Failed (StopError lag_message), [])) /\
  (lag < size x ->
   exists out,
     run (diff_lagN_func.diffC x lag) = (Value out, []) /\
     Z.of_nat (length out) = size x - lag /\
     forall (i : nat) (a b : double),
       x !! i = Some a -> x !! (i + Z.to_nat lag)%nat = Some b ->
       out !! i = Some (dsub b a)).
Proof.
  intros Hlag. rewrite diffC_lagN_na. split; intros H.
  - apply na_diffC_stop, H.
  - destruct (na_diffC_value x lag false ltac:(lia)) as (out & E & Hl & Hout).
    exists out. split; [exact E|]. split; [exact Hl|exact Hout].
Qed.

Lemma diffC_lagN_values_witness :
  let x := [of_int 1; of_int 3; of_int 6; of_int 10] in
  0 <= 2 /\
  (size x <= 2 ->
   run (diff_lagN_func.diffC x 2) = (Failed (StopError lag_message), [])) /\
  (2 < size x ->
   exists out,
     run (diff_lagN_func.diffC x 2) = (Value out, []) /\
     Z.of_nat (length out) = size x - 2 /\
     forall (i : nat) (a b : double),
       x !! i = Some a -> x !! (i + Z.to_nat 2)%nat = Some b ->
       out !! i = Some (dsub b a)).
Proof.
  intros x. assert (H : 0 <= 2) by lia.
  split; [exact H|exact (diffC_lagN_values x 2 H)].
Defined.

(** X3.  A negative lag for which [n - lag] is still an [int] passes
    the length test of both parametrized kernels, and the first iteration
    of the loop then subscripts [x] at the negative index [lag].  (Where
    [n - lag] exceeds [INT_MAX] the subtraction overflows before any
    subscript; that case is outside this statement.) *)
Theorem diffC_negative_lag (x : NumericVector) (lag : Z) (na_rm : bool) :
  lag < 0 -> size x - lag <= INT_MAX ->
  run (diff_lagN_func.diffC x lag) = (Failed (OutOfBounds lag), []) /\
  run (na_diff_func.diffC x lag na_rm) = (Failed (OutOfBounds lag), []).
Proof.
  intros Hlag _.
  assert (Hn : 0 <= size x) by (unfold size; lia).
  assert (Hget : forall w, vget x lag w = (Failed (OutOfBounds lag), w)).
  { intros w. unfold vget. destruct (Z.leb_spec 0 lag); [lia|reflexivity]. }
  assert (Hk : exists k, Z.to_nat (size x - lag) = Datatypes.S k).
  { exists (Z.to_nat (size x - lag) - 1)%nat. lia. }
  destruct Hk as [k Hk].
  assert (E : forall b,
             run (na_diff_func.diffC x lag b) = (Failed (OutOfBounds lag), [])).
  { intros b. unfold run, na_diff_func.diffC.
    destruct (Z.geb_spec lag (size x)); [lia|].
    rewrite (bind_value _ _ _ _ _
               (NumericVector_new_value (size x - lag) [] ltac:(lia))).
    unfold for_loop. rewrite Hk, for_from_S.
    apply bind_failed. unfold na_test. destruct b.
    - apply bind_failed, bind_failed, Hget.
    - rewrite bind_ret. apply bind_failed, Hget. }
  split; [rewrite diffC_lagN_na|]; apply E.
Qed.

Lemma diffC_negative_lag_witness :
  -1 < 0 /\ size [of_int 1; of_int 2] - -1 <= INT_MAX /\
  run (diff_lagN_func.diffC [of_int 1; of_int 2] (-1))
  = (Failed (OutOfBounds (-1)), []) /\
  run (na_diff_func.diffC [of_int 1; of_int 2] (-1) true)
  = (Failed (OutOfBounds (-1)), []).
Proof.
  assert (H : -1 < 0) by lia.
  assert (Hfit : size [of_int 1; of_int 2] - -1 <= INT_MAX)
    by (unfold size, INT_MAX; simpl; lia).
  split; [exact H|]. split; [exact Hfit|].
  exact (diffC_negative_lag [of_int 1; of_int 2] (-1) true H Hfit).
Defined.

(** X4.  For [0 <= lag < length(x)] the missing-aware [diffC] returns
    [length(x) - lag] elements, the missing value where the policy is on
    and [x[i + lag]] is missing and [x[i + lag] - x[i]] elsewhere, and
    signals one warning for each missing element from index [lag] on when
    the policy is on, none when it is off. *)
Theorem na_diffC_values_and_warnings (x : NumericVector) (lag : Z)
    (na_rm : bool) :
  0 <= lag < size x ->
  exists out,
    run (na_diff_func.diffC x lag na_rm)
    = (Value out,
       replicate (if na_rm then na_count (drop (Z.to_nat lag) x) else 0%nat)
                 missing_warning) /\
    diff_of na_rm lag x out.
Proof.
  intros H. destruct (na_diffC_value x lag na_rm H) as (out & E & Hout).
  rewrite diff_warnings_full in E. exists out. split; assumption.
Qed.

Lemma na_diffC_values_and_warnings_witness :
  let x := [of_int 1; NA_REAL; of_int 3; NA_REAL] in
  0 <= 1 < size x /\
  exists out,
    run (na_diff_func.diffC x 1 true)
    = (Value out,
       replicate (na_count (drop (Z.to_nat 1) x)) missing_warning) /\
    diff_of true 1 x out.
Proof.
  intros x. assert (H : 0 <= 1 < size x) by (unfold x, size; simpl; lia).
  split; [exact H|exact (na_diffC_values_and_warnings x 1 true H)].
Defined.

(** ** The cumulative sum, value by value *)

(** X5.  On a non-empty vector [cumsumC] returns as many elements as [x]
    has: [out[0] = x[0]], and [out[i]] is the missing value where the
    policy is on and [x[i]] is missing and [out[i - 1] + x[i]] elsewhere.
    It signals one warning for each missing element from index 1 on when
    the policy is on ([x[0]] is never tested), none when it is off. *)
Theorem cumsumC_values_and_warnings (x : NumericVector) (na_rm : bool) :
  x <> [] ->
  exists out,
    run (cumsumC x na_rm)
    = (Value out,
       replicate (if na_rm then na_count (drop 1 x) else 0%nat)
                 missing_warning) /\
    scan_of dadd na_rm x out.
Proof.
  intros Hx. rewrite cumsumC_scan.
  destruct (scan_kernel_spec dadd na_rm x Hx) as (out & E & Hout).
  rewrite scan_warnings_full in E. exists out. split; assumption.
Qed.

Lemma cumsumC_values_and_warnings_witness :
  let x := [NA_REAL; of_int 2; NA_REAL; NA_REAL] in
  x <> [] /\
  exists out,
    run (cumsumC x true)
    = (Value out, replicate (na_count (drop 1 x)) missing_warning) /\
    scan_of dadd true x out.
Proof.
  intros x. assert (H : x <> []) by discriminate.
  split; [exact H|exact (cumsumC_values_and_warnings x true H)].
Defined.

(** ** Missing values in the cumulative kernels *)

Lemma is_na_eq (d : double) : is_na d = true -> d = NA_REAL.
Proof. destruct d; simpl; intros H; try discriminate H; reflexivity. Qed.

Lemma dlt_na_l (b : double) : dlt NA_REAL b = false.
Proof. reflexivity. Qed.

Lemma dlt_na_r (a : double) : dlt a NA_REAL = false.
Proof. destruct a; reflexivity. Qed.

Lemma dadd_na_r (a : double) : dadd a NA_REAL = NA_REAL.
Proof. destruct a; reflexivity. Qed.

Lemma dmul_na_r (a : double) : dmul a NA_REAL = NA_REAL.
Proof. destruct a; reflexivity. Qed.

(** An operation that returns the missing value on a missing left operand
    keeps the output missing once it is. *)
Lemma scan_absorbs (op : double -> double -> double) (na_rm : bool)
    (x out : NumericVector) :
  (forall b, op NA_REAL b = NA_REAL) ->
  scan_of op na_rm x out -> never_recovers out.
Proof.
  intros Hop (Hl & _ & Hrec) i j. induction j as [|j IH]; intros a Hij Ha Hna.
  - replace i with 0%nat in Ha by lia.
    rewrite Ha. f_equal. apply is_na_eq, Hna.
  - destruct (decide (i = Datatypes.S j)) as [->|Hne].
    + rewrite Ha. f_equal. apply is_na_eq, Hna.
    + assert (Hj : out !! j = Some NA_REAL) by (apply (IH a); [lia|auto..]).
      destruct (lookup_lt_is_Some_2 x (Datatypes.S j) ltac:(lia)) as [b Hb].
      rewrite (Hrec (Datatypes.S j) NA_REAL b ltac:(lia)); auto.
      * rewrite Hop. destruct (na_rm && is_na b); reflexivity.
      * replace (Datatypes.S j - 1)%nat with j by lia. exact Hj.
Qed.

(** X6.  None of the four cumulative kernels recovers from a missing
    output: on a non-empty vector, once [out[i]] is missing, so is every
    later element, for [cummaxC], [cumminC], [cumprodC] and [cumsumC]
    under either policy. *)
Theorem cumulative_never_recover (x : NumericVector) (na_rm : bool) :
  x <> [] ->
  (exists out, run (cummaxC x) = (Value out, []) /\ never_recovers out) /\
  (exists out, run (cumminC x) = (Value out, []) /\ never_recovers out) /\
  (exists out, run (cumprodC x) = (Value out, []) /\ never_recovers out) /\
  (exists out w, run (cumsumC x na_rm) = (Value out, w) /\ never_recovers out).
Proof.
  intros Hx.
  rewrite cummaxC_scan, cumminC_scan, cumprodC_scan, cumsumC_scan.
  split; [|split; [|split]].
  - destruct (scan_kernel_spec std_max false x Hx) as (out & E & H).
    exists out. split; [exact E|].
    apply (scan_absorbs std_max false x); [reflexivity|exact H].
  - destruct (scan_kernel_spec std_min false x Hx) as (out & E & H).
    exists out. split; [exact E|].
    apply (scan_absorbs std_min false x); [|exact H].
    intros b. unfold std_min. rewrite dlt_na_r. reflexivity.
  - destruct (scan_kernel_spec dmul false x Hx) as (out & E & H).
    exists out. split; [exact E|].
    apply (scan_absorbs dmul false x); [reflexivity|exact H].
  - destruct (scan_kernel_spec dadd na_rm x Hx) as (out & E & H).
    eexists out, _. split; [exact E|].
    apply (scan_absorbs dadd na_rm x); [reflexivity|exact H].
Qed.

Lemma cumulative_never_recover_witness :
  let x := [of_int 1; NA_REAL; of_int 3] in
  x <> [] /\
  (exists out, run (cummaxC x) = (Value out, []) /\ never_recovers out) /\
  (exists out, run (cumminC x) = (Value out, []) /\ never_recovers out) /\
  (exists out, run (cumprodC x) = (Value out, []) /\ never_recovers out) /\
  (exists out w, run (cumsumC x true) = (Value out, w) /\ never_recovers out).
Proof.
  intros x. assert (H : x <> []) by discriminate.
  split; [exact H|exact (cumulative_never_recover x true H)].
Defined.

(** X7.  [cummaxC] and [cumminC] step over a missing element after the
    first: where [x[i]] is missing, [i >= 1], the output repeats
    [out[i - 1]].  A missing first element makes every output missing. *)
Theorem cummax_cummin_missing (x : NumericVector) :
  x <> [] ->
  (exists out,
     run (cummaxC x) = (Value out, []) /\
     (forall (i : nat) (a : double),
        (1 <= i)%nat -> out !! (i - 1)%nat = Some a ->
        x !! i = Some NA_REAL -> out !! i = Some a) /\
     (x !! 0%nat = Some NA_REAL ->
      forall j : nat, (j < length x)%nat -> out !! j = Some NA_REAL)) /\
  (exists out,
     run (cumminC x) = (Value out, []) /\
     (forall (i : nat) (a : double),
        (1 <= i)%nat -> out !! (i - 1)%nat = Some a ->
        x !! i = Some NA_REAL -> out !! i = Some a) /\
     (x !! 0%nat = Some NA_REAL ->
      forall j : nat, (j < length x)%nat -> out !! j = Some NA_REAL)).
Proof.
  intros Hx. rewrite cummaxC_scan, cumminC_scan. split.
  - destruct (scan_kernel_spec std_max false x Hx) as (out & E & H).
    exists out. split; [exact E|]. split.
    + intros i a Hi Ha Hb. destruct H as (_ & _ & Hrec).
      rewrite (Hrec i a NA_REAL Hi Ha Hb). simpl.
      unfold std_max. rewrite dlt_na_r. reflexivity.
    + intros H0 j Hj.
      apply (scan_absorbs std_max false x out ltac:(reflexivity) H 0%nat j
               NA_REAL); [|destruct H as (_ & -> & _); exact H0|reflexivity].
      destruct H as (Hl & _). lia.
  - destruct (scan_kernel_spec std_min false x Hx) as (out & E & H).
    assert (Hop : forall b, std_min NA_REAL b = NA_REAL).
    { intros b. unfold std_min. rewrite dlt_na_r. reflexivity. }
    exists out. split; [exact E|]. split.
    + intros i a Hi Ha Hb. destruct H as (_ & _ & Hrec).
      rewrite (Hrec i a NA_REAL Hi Ha Hb). simpl.
      unfold std_min. rewrite dlt_na_l. reflexivity.
    + intros H0 j Hj.
      apply (scan_absorbs std_min false x out Hop H 0%nat j NA_REAL);
        [|destruct H as (_ & -> & _); exact H0|reflexivity].
      destruct H as (Hl & _). lia.
Qed.

Lemma cummax_cummin_missing_witness :
  let x := [of_int 4; NA_REAL; of_int 9] in
  x <> [] /\
  exists out,
    run (cummaxC x) = (Value out, []) /\
    (forall (i : nat) (a : double),
       (1 <= i)%nat -> out !! (i - 1)%nat = Some a ->
       x !! i = Some NA_REAL -> out !! i = Some a) /\
    (x !! 0%nat = Some NA_REAL ->
     forall j : nat, (j < length x)%nat -> out !! j = Some NA_REAL).
Proof.
  intros x. assert (H : x <> []) by discriminate.
  split; [exact H|exact (proj1 (cummax_cummin_missing x H))].
Defined.

(** X8.  [cumprodC] and [cumsumC] carry a missing element to the end:
    where [x[k]] is missing, every output from index [k] on is the missing
    value, under either policy of [cumsumC]. *)
Theorem cumprod_cumsum_missing (x : NumericVector) (na_rm : bool) (k : nat) :
  x <> [] -> x !! k = Some NA_REAL ->
  (exists out,
     run (cumprodC x) = (Value out, []) /\
     forall j : nat, (k <= j < length x)%nat -> out !! j = Some NA_REAL) /\
  (exists out w,
     run (cumsumC x na_rm) = (Value out, w) /\
     forall j : nat, (k <= j < length x)%nat -> out !! j = Some NA_REAL).
Proof.
  intros Hx Hk. rewrite cumprodC_scan, cumsumC_scan.
  assert (Hgen : forall op b out,
    (forall c, op NA_REAL c = NA_REAL) -> (forall a, op a NA_REAL = NA_REAL) ->
    scan_of op b x out ->
    forall j : nat, (k <= j < length x)%nat -> out !! j = Some NA_REAL).
  { intros op b out Hl Hr H j Hj.
    assert (Hout : out !! k = Some NA_REAL).
    { destruct H as (Hlen & H0 & Hrec). destruct k as [|k'].
      - rewrite H0. exact Hk.
      - destruct (lookup_lt_is_Some_2 out k') as [a Ha]; [lia|].
        rewrite (Hrec (Datatypes.S k') a NA_REAL ltac:(lia)); auto.
        + rewrite Hr. destruct (b && is_na NA_REAL); reflexivity.
        + replace (Datatypes.S k' - 1)%nat with k' by lia. exact Ha. }
    apply (scan_absorbs op b x out Hl H k j NA_REAL); auto.
    destruct H as (Hlen & _). lia. }
  split.
  - destruct (scan_kernel_spec dmul false x Hx) as (out & E & H).
    exists out. split; [exact E|].
    apply (Hgen dmul false out); auto using dmul_na_r.
  - destruct (scan_kernel_spec dadd na_rm x Hx) as (out & E & H).
    eexists out, _. split; [exact E|].
    apply (Hgen dadd na_rm out); auto using dadd_na_r.
Qed.

Lemma cumprod_cumsum_missing_witness :
  let x := [of_int 2; NA_REAL; of_int 5] in
  x <> [] /\ x !! 1%nat = Some NA_REAL /\
  (exists out,
     run (cumprodC x) = (Value out, []) /\
     forall j : nat, (1 <= j < length x)%nat -> out !! j = Some NA_REAL) /\
  (exists out w,
     run (cumsumC x false) = (Value out, w) /\
     forall j : nat, (1 <= j < length x)%nat -> out !! j = Some NA_REAL).
Proof.
  intros x. assert (H : x <> []) by discriminate.
  assert (Hk : x !! 1%nat = Some NA_REAL) by reflexivity.
  split; [exact H|]. split; [exact Hk|].
  exact (cumprod_cumsum_missing x false 1 H Hk).
Defined.

(** ** What the cumulative maximum and minimum compute *)

Lemma is_greatest_step (l : list double) (a b : double) :
  Forall not_na l -> not_na b ->
  is_greatest l a -> is_greatest (l ++ [b]) (std_max a b).
Proof.
  intros Hl Hb (Ha & Hall).
  assert (Hna : not_na a).
  { apply list_elem_of_lookup_1 in Ha. destruct Ha as [i Hi].
    exact (proj1 (Forall_lookup not_na l) Hl _ _ Hi). }
  unfold std_max. destruct (dlt a b) eqn:E; split.
  - apply elem_of_app. right. apply list_elem_of_singleton. reflexivity.
  - intros y Hy. apply elem_of_app in Hy. destruct Hy as [Hy|Hy].
    + apply dle_trans with a; [apply Hall, Hy|apply dlt_dle, E].
    + apply list_elem_of_singleton in Hy. subst y. apply dle_refl, Hb.
  - apply elem_of_app. left. exact Ha.
  - intros y Hy. apply elem_of_app in Hy. destruct Hy as [Hy|Hy].
    + apply Hall, Hy.
    + apply list_elem_of_singleton in Hy. subst y.
      apply dlt_false_dle; assumption.
Qed.

Lemma is_least_step (l : list double) (a b : double) :
  Forall not_na l -> not_na b ->
  is_least l a -> is_least (l ++ [b]) (std_min a b).
Proof.
  intros Hl Hb (Ha & Hall).
  assert (Hna : not_na a).
  { apply list_elem_of_lookup_1 in Ha. destruct Ha as [i Hi].
    exact (proj1 (Forall_lookup not_na l) Hl _ _ Hi). }
  unfold std_min. destruct (dlt b a) eqn:E; split.
  - apply elem_of_app. right. apply list_elem_of_singleton. reflexivity.
  - intros y Hy. apply elem_of_app in Hy. destruct Hy as [Hy|Hy].
    + apply dle_trans with a; [apply dlt_dle, E|apply Hall, Hy].
    + apply list_elem_of_singleton in Hy. subst y. apply dle_refl, Hb.
  - apply elem_of_app. left. exact Ha.
  - intros y Hy. apply elem_of_app in Hy. destruct Hy as [Hy|Hy].
    + apply Hall, Hy.
    + apply list_elem_of_singleton in Hy. subst y.
      apply dlt_false_dle; assumption.
Qed.

(** The outputs of a recurrence keep a property of the prefixes of [x]
    that holds of the first element and that the operation extends. *)
Lemma recurrence_prefix (P : list double -> double -> Prop)
    (op : double -> double -> double) (x out : NumericVector) :
  (forall d, x !! 0%nat = Some d -> P [d] d) ->
  (forall (i : nat) a b, x !! Datatypes.S i = Some b ->
     P (take (Datatypes.S i) x) a ->
     P (take (Datatypes.S i) x ++ [b]) (op a b)) ->
  recurrence op x out ->
  forall (i : nat) (d : double),
    out !! i = Some d -> P (take (Datatypes.S i) x) d.
Proof.
  intros H0 Hstep (Hlen & Hz & Hrec).
  induction i as [|i IH]; intros d Hd.
  - rewrite Hz in Hd. rewrite (take_S_r x 0 d Hd), take_0. apply H0, Hd.
  - assert (Hi : (Datatypes.S i < length out)%nat)
      by (apply lookup_lt_Some in Hd; exact Hd).
    destruct (lookup_lt_is_Some_2 out i ltac:(lia)) as [a Ha].
    destruct (lookup_lt_is_Some_2 x (Datatypes.S i) ltac:(lia)) as [b Hb].
    assert (E : out !! Datatypes.S i = Some (op a b)).
    { apply Hrec; [lia| |exact Hb].
      replace (Datatypes.S i - 1)%nat with i by lia. exact Ha. }
    rewrite E in Hd. injection Hd as <-.
    rewrite (take_S_r x (Datatypes.S i) b Hb).
    apply Hstep; [exact Hb|apply IH, Ha].
Qed.

(** X9.  On a non-empty vector without missing values, [cummaxC(x)[i]] is
    a greatest element of [x[0..i]] and [cumminC(x)[i]] is a least
    element of [x[0..i]]. *)
Theorem cummax_cummin_prefix (x : NumericVector) :
  x <> [] -> Forall not_na x ->
  (exists out,
     run (cummaxC x) = (Value out, []) /\ length out = length x /\
     forall (i : nat) (d : double),
       out !! i = Some d -> is_greatest (take (Datatypes.S i) x) d) /\
  (exists out,
     run (cumminC x) = (Value out, []) /\ length out = length x /\
     forall (i : nat) (d : double),
       out !! i = Some d -> is_least (take (Datatypes.S i) x) d).
Proof.
  intros Hx Hna. rewrite cummaxC_scan, cumminC_scan.
  assert (Hat : forall (i : nat) d, x !! i = Some d -> not_na d)
    by exact (proj1 (Forall_lookup not_na x) Hna).
  split.
  - destruct (scan_kernel_off std_max x Hx) as (out & E & Hrec).
    exists out. split; [exact E|]. split; [apply Hrec|].
    apply (recurrence_prefix is_greatest std_max x out); [| |exact Hrec].
    + intros d Hd. split; [apply list_elem_of_singleton; reflexivity|].
      intros y Hy. apply list_elem_of_singleton in Hy. subst y.
      apply dle_refl, (Hat _ _ Hd).
    + intros i a b Hb Ha. apply is_greatest_step;
        [apply Forall_take, Hna|apply (Hat _ _ Hb)|exact Ha].
  - destruct (scan_kernel_off std_min x Hx) as (out & E & Hrec).
    exists out. split; [exact E|]. split; [apply Hrec|].
    apply (recurrence_prefix is_least std_min x out); [| |exact Hrec].
    + intros d Hd. split; [apply list_elem_of_singleton; reflexivity|].
      intros y Hy. apply list_elem_of_singleton in Hy. subst y.
      apply dle_refl, (Hat _ _ Hd).
    + intros i a b Hb Ha. apply is_least_step;
        [apply Forall_take, Hna|apply (Hat _ _ Hb)|exact Ha].
Qed.

Lemma cummax_cummin_prefix_witness :
  let x := [of_int 2; of_int 7; of_int 1; of_int 8] in
  x <> [] /\ Forall not_na x /\
  (exists out,
     run (cummaxC x) = (Value out, []) /\ length out = length x /\
     forall (i : nat) (d : double),
       out !! i = Some d -> is_greatest (take (Datatypes.S i) x) d) /\
  (exists out,
     run (cumminC x) = (Value out, []) /\ length out = length x /\
     forall (i : nat) (d : double),
       out !! i = Some d -> is_least (take (Datatypes.S i) x) d).
Proof.
  intros x. assert (H : x <> []) by discriminate.
  assert (Hna : Forall not_na x) by (repeat constructor).
  split; [exact H|]. split; [exact Hna|].
  exact (cummax_cummin_prefix x H Hna).
Defined.

(** ** The range kernels on vectors that hold missing values *)

Lemma range_step_na (acc : double * double) :
  range_step acc NA_REAL = (NA_REAL, NA_REAL).
Proof.
  destruct acc as [lo hi]. unfold range_step, std_min, std_max.
  cbn [fst snd]. rewrite dlt_na_r, dlt_na_l. reflexivity.
Qed.

Lemma range_step_after_na (d : double) :
  range_step (NA_REAL, NA_REAL) d = (d, d).
Proof.
  unfold range_step, std_min, std_max.
  cbn [fst snd]. rewrite dlt_na_r, dlt_na_l. reflexivity.
Qed.

Lemma range_fold_through_na (pre : list double) (acc : double * double) :
  fold_left range_step (pre ++ [NA_REAL]) acc = (NA_REAL, NA_REAL).
Proof.
  rewrite fold_left_app. simpl. apply range_step_na.
Qed.

(** X10.  Without the skip policy a missing value makes the range
    kernels forget what came before it: [rangeC], and [na_rangeC] with
    the policy off, return on [pre ++ MISSING :: d :: suf] what they
    return on [d :: suf], and on a vector that ends with a missing value
    they return two missing values. *)
Theorem range_forgets_before_missing (pre suf : list double) (d : double) :
  run (rangeC (pre ++ NA_REAL :: d :: suf)) = run (rangeC (d :: suf)) /\
  run (na_rangeC (pre ++ NA_REAL :: d :: suf) false)
  = run (na_rangeC (d :: suf) false) /\
  run (rangeC (pre ++ [NA_REAL])) = (Value [NA_REAL; NA_REAL], []) /\
  run (na_rangeC (pre ++ [NA_REAL]) false) = (Value [NA_REAL; NA_REAL], []).
Proof.
  assert (H1 : run (rangeC (pre ++ NA_REAL :: d :: suf))
               = run (rangeC (d :: suf))).
  { unfold run. rewrite (rangeC_value d suf).
    replace (pre ++ NA_REAL :: d :: suf)
      with ((pre ++ [NA_REAL]) ++ d :: suf)
      by (rewrite <- app_assoc; reflexivity).
    destruct pre as [|p0 pre'].
    - simpl app. rewrite rangeC_value. simpl fold_left.
      rewrite range_step_after_na. reflexivity.
    - simpl app. rewrite rangeC_value, fold_left_app.
      rewrite range_fold_through_na. simpl fold_left.
      rewrite range_step_after_na. reflexivity. }
  assert (H2 : run (rangeC (pre ++ [NA_REAL]))
               = (Value [NA_REAL; NA_REAL], [])).
  { unfold run. destruct pre as [|p0 pre']; [reflexivity|].
    simpl app. rewrite rangeC_value, range_fold_through_na. reflexivity. }
  unfold run in *. rewrite !na_rangeC_off. auto.
Qed.

Lemma range_fold_member (l : list double) :
  forall (seen : list double) (acc : double * double),
    fst acc ∈ seen -> snd acc ∈ seen ->
    fst (fold_left range_step l acc) ∈ seen ++ l /\
    snd (fold_left range_step l acc) ∈ seen ++ l.
Proof.
  induction l as [|d l IH]; intros seen [lo hi] Hlo Hhi.
  - rewrite app_nil_r. split; assumption.
  - replace (seen ++ d :: l) with ((seen ++ [d]) ++ l)
      by (rewrite <- app_assoc; reflexivity).
    simpl fold_left. apply IH; unfold range_step; simpl.
    + unfold std_min. destruct (dlt lo d); apply elem_of_app;
        [left; exact Hlo|right; apply list_elem_of_singleton; reflexivity].
    + unfold std_max. destruct (dlt d hi); apply elem_of_app;
        [left; exact Hhi|right; apply list_elem_of_singleton; reflexivity].
Qed.

(** X11.  On every non-empty vector, whatever it holds, [rangeC] returns
    exactly two elements and both are elements of [x]. *)
Theorem rangeC_returns_elements (x : NumericVector) :
  x <> [] ->
  exists lo hi,
    run (rangeC x) = (Value [lo; hi], []) /\ lo ∈ x /\ hi ∈ x.
Proof.
  intros Hx. destruct x as [|x0 x']; [congruence|].
  eexists _, _. split; [apply rangeC_value|].
  apply (range_fold_member x' [x0] (x0, x0));
    apply list_elem_of_singleton; reflexivity.
Qed.

Lemma rangeC_returns_elements_witness :
  let x := [of_int 5; NA_REAL; of_int 7] in
  x <> [] /\
  exists lo hi,
    run (rangeC x) = (Value [lo; hi], []) /\ lo ∈ x /\ hi ∈ x.
Proof.
  intros x. assert (H : x <> []) by discriminate.
  split; [exact H|exact (rangeC_returns_elements x H)].
Defined.

(** ** The skip policy on vectors without missing values *)

Lemma bind_ext {A B : Type} (m : M A) (k1 k2 : A -> M B) w :
  (forall a w', k1 a w' = k2 a w') -> bind m k1 w = bind m k2 w.
Proof.
  intros H. unfold bind. destruct (m w) as [[a|e] w']; [apply H|reflexivity].
Qed.

Lemma for_from_ret_ext {S R : Type} (body1 body2 : Z -> S -> M (step S R))
    (k : nat) :
  forall i s w,
    (forall j s w, i <= j < i + Z.of_nat k -> body1 j s w = body2 j s w) ->
    for_from_ret k i body1 s w = for_from_ret k i body2 s w.
Proof.
  induction k as [|k IH]; intros i s w H; [reflexivity|].
  simpl. unfold bind. rewrite H by lia.
  destruct (body2 i s w) as [[[s1|v]|e] w1]; try reflexivity.
  apply IH. intros j s' w' Hj. apply H. lia.
Qed.

Lemma not_missing_from (lo : nat) (x : NumericVector) (j : nat) (d : double) :
  ~ missing_from lo x -> (lo <= j)%nat -> x !! j = Some d -> is_na d = false.
Proof.
  intros H Hj Hd. destruct (is_na d) eqn:E; [|reflexivity].
  exfalso. apply H. exists j, d. auto.
Qed.

Lemma Forall_not_missing (lo : nat) (x : NumericVector) :
  Forall not_na x -> ~ missing_from lo x.
Proof.
  intros H (i & d & _ & Hd & Hna).
  pose proof (proj1 (Forall_lookup not_na x) H i d Hd) as Hn.
  unfold not_na in Hn. congruence.
Qed.

Lemma na_test_fails (x : NumericVector) (j : Z) w :
  j < 0 -> na_test true x j w = (Failed (OutOfBounds j), w).
Proof.
  intros Hj. unfold na_test. apply bind_failed.
  unfold vget. destruct (Z.leb_spec 0 j); [lia|reflexivity].
Qed.

(** X12.  The skip policy changes nothing where nothing is missing at a
    tested index: [cumsumC] with no missing value from index 1 on, the
    missing-aware [diffC] with none from index [lag] on, and [na_rangeC]
    with none at all return, policy on, what they return policy off, which
    for the last two is what the parametrized [diffC] and [rangeC]
    return. *)
Theorem skip_policy_idle (x : NumericVector) (lag : Z) :
  (~ missing_from 1 x -> run (cumsumC x true) = run (cumsumC x false)) /\
  (~ missing_from (Z.to_nat lag) x ->
   run (na_diff_func.diffC x lag true) = run (na_diff_func.diffC x lag false)
   /\ run (na_diff_func.diffC x lag true) = run (diff_lagN_func.diffC x lag))
  /\
  (~ missing_from 0 x ->
   run (na_rangeC x true) = run (na_rangeC x false) /\
   run (na_rangeC x true) = run (rangeC x)).
Proof.
  split; [|split].
  - intros H. unfold run. rewrite !cumsumC_scan. unfold scan_kernel.
    apply bind_ext. intros out0 w0. apply bind_ext. intros x0 w1.
    apply bind_ext. intros out1 w2. unfold for_loop.
    apply for_from_ext. intros j out w Hj.
    destruct (lookup_size x j ltac:(lia)) as [d Hd].
    assert (Hna : is_na d = false)
      by (apply (not_missing_from 1 x (Z.to_nat j) d H); [lia|exact Hd]).
    unfold scan_body.
    rewrite (bind_value _ _ _ _ _ (na_test_value true x j d w ltac:(lia) Hd)).
    rewrite Hna. reflexivity.
  - intros H.
    assert (E : run (na_diff_func.diffC x lag true)
                = run (na_diff_func.diffC x lag false)).
    { unfold run, na_diff_func.diffC.
      destruct (lag >=? size x); [reflexivity|].
      apply bind_ext. intros out0 w0. unfold for_loop.
      apply (for_from_ext (diff_body true x lag) (diff_body false x lag)).
      intros j out w Hj. unfold diff_body.
      destruct (Z.lt_ge_cases j 0) as [Hneg|Hpos].
      - rewrite (bind_failed _ _ _ _ _ (na_test_fails x j w Hneg)).
        symmetry. change (na_test false x j) with (@ret bool false).
        rewrite bind_ret. apply bind_failed.
        unfold vget. destruct (Z.leb_spec 0 j); [lia|reflexivity].
      - destruct (lookup_size x j ltac:(lia)) as [d Hd].
        assert (Hna : is_na d = false)
          by (apply (not_missing_from (Z.to_nat lag) x (Z.to_nat j) d H);
              [lia|exact Hd]).
        rewrite (bind_value _ _ _ _ _
                   (na_test_value true x j d w Hpos Hd)).
        rewrite Hna. reflexivity. }
    split; [exact E|]. rewrite diffC_lagN_na. exact E.
  - intros H.
    assert (E : run (na_rangeC x true) = run (na_rangeC x false)).
    { unfold run. rewrite !na_rangeC_unfold.
      apply bind_ext. intros omin w0. apply bind_ext. intros omax w1.
      destruct (size x =? 0); [reflexivity|].
      unfold bind, for_loop_ret.
      rewrite (for_from_ret_ext (na_range_body true x)
                 (na_range_body false x)); [reflexivity|].
      intros j acc w Hj.
      destruct (lookup_size x j ltac:(lia)) as [d Hd].
      assert (Hna : is_na d = false)
        by (apply (not_missing_from 0 x (Z.to_nat j) d H); [lia|exact Hd]).
      rewrite (na_range_body_on x j acc d w ltac:(lia) Hd), Hna.
      unfold na_range_body. change (na_test false x j) with (@ret bool false).
      rewrite bind_ret.
      rewrite (bind_value _ _ _ _ _
                 (range_update_value x j acc d w ltac:(lia) Hd)).
      reflexivity. }
    split; [exact E|]. rewrite E. unfold run. apply na_rangeC_off.
Qed.

Lemma skip_policy_idle_witness :
  let x := [of_int 4; of_int 1; of_int 7] in
  ~ missing_from 1 x /\ ~ missing_from (Z.to_nat 1) x /\ ~ missing_from 0 x /\
  run (cumsumC x true) = run (cumsumC x false) /\
  run (na_diff_func.diffC x 1 true) = run (diff_lagN_func.diffC x 1) /\
  run (na_rangeC x true) = run (rangeC x).
Proof.
  intros x.
  assert (Hna : Forall not_na x) by (repeat constructor).
  pose proof (Forall_not_missing 1 x Hna) as H1.
  pose proof (Forall_not_missing (Z.to_nat 1) x Hna) as H2.
  pose proof (Forall_not_missing 0 x Hna) as H3.
  destruct (skip_policy_idle x 1) as (P1 & P2 & P3).
  split; [exact H1|]. split; [exact H2|]. split; [exact H3|].
  split; [exact (P1 H1)|]. split; [exact (proj2 (P2 H2))|].
  exact (proj2 (P3 H3)).
Defined.

(** ** Kernels that never warn *)

Lemma silent_for_from {S : Type} (body : Z -> S -> M S) :
  (forall i s, silent (body i s)) ->
  forall k i s, silent (for_from k i body s).
Proof.
  intros Hbody. induction k as [|k IH]; intros i s; [apply silent_ret|].
  simpl. apply silent_bind; [apply Hbody|]. intros s'. apply IH.
Qed.

Lemma silent_scan_body_off (op : double -> double -> double)
    (x : NumericVector) (i : Z) (out : NumericVector) :
  silent (scan_body op false x i out).
Proof.
  change (silent (a <- vget out (i - 1) ;; b <- vget x i ;;
                  vset out i (op a b))).
  repeat (apply silent_bind; [apply silent_vget|intros]). apply silent_vset.
Qed.

Lemma silent_scan_kernel_off (op : double -> double -> double)
    (x : NumericVector) : silent (scan_kernel op false x).
Proof.
  unfold scan_kernel.
  apply silent_bind; [apply silent_new|intros out0].
  apply silent_bind; [apply silent_vget|intros x0].
  apply silent_bind; [apply silent_vset|intros out1].
  apply silent_for_from. intros. apply silent_scan_body_off.
Qed.

Lemma silent_diff_body_off (x : NumericVector) (lag i : Z)
    (out : NumericVector) : silent (diff_body false x lag i out).
Proof.
  change (silent (a <- vget x i ;; b <- vget x (i - lag) ;;
                  vset out (i - lag) (dsub a b))).
  repeat (apply silent_bind; [apply silent_vget|intros]). apply silent_vset.
Qed.

Lemma silent_diffC_off (x : NumericVector) (lag : Z) :
  silent (na_diff_func.diffC x lag false).
Proof.
  unfold na_diff_func.diffC. destruct (lag >=? size x); [apply silent_throw|].
  apply silent_bind; [apply silent_new|intros out0].
  apply (silent_for_from (diff_body false x lag)).
  intros. apply silent_diff_body_off.
Qed.

Lemma silent_not_warned {A : Type} (m : M A) : silent m -> ~ warned m.
Proof. intros H W. apply W. apply H. Qed.

(** X13.  The kernels without a skip policy, and [cumsumC] and the
    missing-aware [diffC] with the policy off, never signal a warning, on
    any vector and any lag, whether the call returns or fails. *)
Theorem kernels_never_warn (pow : double -> double -> double)
    (x : NumericVector) (lag : Z) :
  ~ warned (cummaxC x) /\ ~ warned (cumminC x) /\ ~ warned (cumprodC x) /\
  ~ warned (cumsumC x false) /\
  ~ warned (diff_lagOne_func.diffC x) /\
  ~ warned (diff_lagN_func.diffC x lag) /\
  ~ warned (na_diff_func.diffC x lag false) /\
  ~ warned (rangeC x) /\ ~ warned (varC pow x).
Proof.
  rewrite cummaxC_scan, cumminC_scan, cumprodC_scan, cumsumC_scan,
    diffC_lagN_na.
  repeat split; apply silent_not_warned;
    try apply silent_scan_kernel_off; try apply silent_diffC_off.
  - unfold diff_lagOne_func.diffC.
    apply silent_bind; [apply silent_new|intros out0].
    apply (silent_for_from (diff_body false x 1)).
    intros. apply silent_diff_body_off.
  - unfold rangeC.
    apply silent_bind; [apply silent_vget|intros omin].
    apply silent_bind; [apply silent_vget|intros omax].
    destruct (size x =? 0); [apply silent_throw|].
    apply silent_bind; [|intros; apply silent_range_result].
    apply silent_for_from. intros. apply silent_range_update.
  - unfold varC. destruct (size x <? 2); [apply silent_ret|].
    apply silent_bind.
    { apply silent_for_from. intros.
      apply silent_bind; [apply silent_vget|intros; apply silent_ret]. }
    intros mx. apply silent_bind; [|intros; apply silent_ret].
    apply silent_for_from. intros.
    apply silent_bind; [apply silent_vget|intros; apply silent_ret].
Qed.

(** ** The only failure of the cumulative kernels *)

Lemma scan_kernel_fails (op : double -> double -> double) (na_rm : bool)
    (x : NumericVector) (e : error) :
  fst (run (scan_kernel op na_rm x)) = Failed e <->
  x = [] /\ e = OutOfBounds 0.
Proof.
  split.
  - intros H. destruct x as [|x0 x'].
    + split; [reflexivity|]. unfold run in H. simpl in H. congruence.
    + destruct (scan_kernel_spec op na_rm (x0 :: x') ltac:(discriminate))
        as (out & E & _).
      rewrite E in H. discriminate H.
  - intros [-> ->]. reflexivity.
Qed.

(** X14.  The four cumulative kernels fail on the empty vector only, and
    there by the subscript [x[0]] outside the vector: none of them tests
    the length. *)
Theorem cumulative_fail_on_empty_only (x : NumericVector) (na_rm : bool)
    (e : error) :
  (fst (run (cummaxC x)) = Failed e <-> x = [] /\ e = OutOfBounds 0) /\
  (fst (run (cumminC x)) = Failed e <-> x = [] /\ e = OutOfBounds 0) /\
  (fst (run (cumprodC x)) = Failed e <-> x = [] /\ e = OutOfBounds 0) /\
  (fst (run (cumsumC x na_rm)) = Failed e <-> x = [] /\ e = OutOfBounds 0).
Proof.
  rewrite cummaxC_scan, cumminC_scan, cumprodC_scan, cumsumC_scan.
  split; [|split; [|split]]; apply scan_kernel_fails.
Qed.

(** ** Missing values in the variance *)

Lemma fold_left_na_stays (f : double -> double -> double) (l : list double) :
  (forall d, f NA_REAL d = NA_REAL) -> fold_left f l NA_REAL = NA_REAL.
Proof.
  intros Hf. induction l as [|d l IH]; [reflexivity|].
  simpl. rewrite Hf. exact IH.
Qed.

Lemma fold_left_na_hit (f : double -> double -> double) (l : list double) :
  (forall d, f NA_REAL d = NA_REAL) -> (forall a, f a NA_REAL = NA_REAL) ->
  forall (i : nat) (acc : double),
    l !! i = Some NA_REAL -> fold_left f l acc = NA_REAL.
Proof.
  intros Hl Hr. induction l as [|d l IH]; intros i acc Hi.
  - rewrite lookup_nil in Hi. discriminate Hi.
  - destruct i as [|i]; simpl in Hi.
    + injection Hi as ->. simpl. rewrite Hr.
      apply fold_left_na_stays, Hl.
    + simpl. apply (IH i), Hi.
Qed.

Lemma dsub_na_r (a : double) : dsub a NA_REAL = NA_REAL.
Proof. destruct a; reflexivity. Qed.

(** X15.  [varC] has no skip policy: when [pow] returns the missing value
    on a missing base raised to the exponent 2, as the [pow] of <cmath>
    does, a missing element anywhere in a vector of two or more elements
    makes the variance the missing value. *)
Theorem varC_missing (pow : double -> double -> double) (x : NumericVector) :
  pow NA_REAL (of_int 2) = NA_REAL ->
  2 <= size x -> missing_from 0 x ->
  run (varC pow x) = (Value NA_REAL, []).
Proof.
  intros Hpow Hn (i & d & _ & Hd & Hna).
  apply is_na_eq in Hna. subst d.
  rewrite (varC_long pow x Hn). do 2 f_equal.
  unfold sample_variance.
  assert (Hm : mean_by_parts x = NA_REAL).
  { unfold mean_by_parts.
    apply (fold_left_na_hit _ x) with (i := i); [reflexivity| |exact Hd].
    intros a. apply dadd_na_r. }
  rewrite Hm.
  assert (Hs : sum_sq_dev pow x NA_REAL = NA_REAL).
  { unfold sum_sq_dev. destruct x as [|x0 x']; [discriminate Hd|].
    cbn [fold_left]. rewrite dsub_na_r, Hpow.
    apply fold_left_na_stays. reflexivity. }
  rewrite Hs. reflexivity.
Qed.

Lemma varC_missing_witness :
  let x := [of_int 2; NA_REAL; of_int 4] in
  pow_square NA_REAL (of_int 2) = NA_REAL /\
  2 <= size x /\ missing_from 0 x /\
  run (varC pow_square x) = (Value NA_REAL, []).
Proof.
  intros x.
  assert (Hpow : pow_square NA_REAL (of_int 2) = NA_REAL) by reflexivity.
  assert (Hn : 2 <= size x) by (unfold x, size; simpl; lia).
  assert (Hm : missing_from 0 x).
  { exists 1%nat, NA_REAL. repeat split. lia. }
  split; [exact Hpow|]. split; [exact Hn|]. split; [exact Hm|].
  exact (varC_missing pow_square x Hpow Hn Hm).
Defined.

(** ** Running a cumulative extremum twice *)

(** A recurrence has one solution. *)
Lemma recurrence_unique (op : double -> double -> double)
    (x o1 o2 : NumericVector) :
  recurrence op x o1 -> recurrence op x o2 -> o1 = o2.
Proof.
  intros (L1 & Z1 & R1) (L2 & Z2 & R2).
  apply list_eq. intros i. induction i as [|i IH].
  - rewrite Z1, Z2. reflexivity.
  - destruct (decide (Datatypes.S i < length x)%nat) as [Hi|Hi].
    + destruct (lookup_lt_is_Some_2 o1 i ltac:(lia)) as [a Ha].
      destruct (lookup_lt_is_Some_2 x (Datatypes.S i) Hi) as [b Hb].
      assert (Ha2 : o2 !! i = Some a) by (rewrite <- IH; exact Ha).
      rewrite (R1 (Datatypes.S i) a b), (R2 (Datatypes.S i) a b); auto;
        try lia; replace (Datatypes.S i - 1)%nat with i by lia; assumption.
    + rewrite !lookup_ge_None_2 by lia. reflexivity.
Qed.

Lemma std_max_idem (a b : double) : std_max a (std_max a b) = std_max a b.
Proof.
  unfold std_max. destruct (dlt a b) eqn:E; [rewrite E; reflexivity|].
  destruct (dlt a a); reflexivity.
Qed.

Lemma std_min_idem (a b : double) : std_min a (std_min a b) = std_min a b.
Proof.
  unfold std_min. destruct (dlt b a) eqn:E; [rewrite E; reflexivity|].
  destruct (dlt a a); reflexivity.
Qed.

(** When [op a (op a b) = op a b], the output of a recurrence is its own
    recurrence. *)
Lemma recurrence_fixed (op : double -> double -> double)
    (x out : NumericVector) :
  (forall a b, op a (op a b) = op a b) ->
  recurrence op x out -> recurrence op out out.
Proof.
  intros Hop (Hl & Hz & Hrec). split; [reflexivity|]. split; [reflexivity|].
  intros i a b Hi Ha Hb.
  destruct (lookup_lt_is_Some_2 x i) as [xi Hxi];
    [apply lookup_lt_Some in Hb; lia|].
  rewrite (Hrec i a xi Hi Ha Hxi) in Hb. injection Hb as <-.
  rewrite Hop. apply Hrec; assumption.
Qed.

(** X16.  [cummaxC] and [cumminC] are idempotent: on a non-empty vector,
    whatever it holds, the kernel applied to its own output returns that
    output. *)
Theorem cummax_cummin_idempotent (x : NumericVector) :
  x <> [] ->
  (exists out,
     run (cummaxC x) = (Value out, []) /\
     run (cummaxC out) = (Value out, [])) /\
  (exists out,
     run (cumminC x) = (Value out, []) /\
     run (cumminC out) = (Value out, [])).
Proof.
  intros Hx. rewrite cummaxC_scan, cumminC_scan.
  assert (Hgen : forall op, (forall a b, op a (op a b) = op a b) ->
    exists out,
      run (scan_kernel op false x) = (Value out, []) /\
      run (scan_kernel op false out) = (Value out, [])).
  { intros op Hop.
    destruct (scan_kernel_off op x Hx) as (out & E & Hrec).
    assert (Hout : out <> []).
    { destruct Hrec as (Hl & _). destruct out, x; simpl in Hl;
        congruence. }
    destruct (scan_kernel_off op out Hout) as (out' & E' & Hrec').
    exists out. split; [exact E|]. rewrite E'. do 2 f_equal.
    apply (recurrence_unique op out); [exact Hrec'|].
    apply (recurrence_fixed op x); assumption. }
  split.
  - destruct (Hgen std_max std_max_idem) as (out & E1 & E2).
    exists out. split; [exact E1|exact E2].
  - destruct (Hgen std_min std_min_idem) as (out & E1 & E2).
    exists out. split; [exact E1|exact E2].
Qed.

Lemma cummax_cummin_idempotent_witness :
  let x := [of_int 2; NA_REAL; of_int 7; of_int 1] in
  x <> [] /\
  (exists out,
     run (cummaxC x) = (Value out, []) /\
     run (cummaxC out) = (Value out, [])) /\
  (exists out,
     run (cumminC x) = (Value out, []) /\
     run (cumminC out) = (Value out, [])).
Proof.
  intros x. assert (H : x <> []) by discriminate.
  split; [exact H|exact (cummax_cummin_idempotent x H)].
Defined.

Lemma cumulative_fail_on_empty_only_witness :
  fst (run (cumsumC [] true)) = Failed (OutOfBounds 0).
Proof.
  exact (proj2 (proj2 (proj2 (proj2
           (cumulative_fail_on_empty_only [] true (OutOfBounds 0)))))
         (conj eq_refl eq_refl)).
Defined.
